(** * WebM duration fixer of the video-capture extension (content-script.js)

    A shallow embedding of [WebMSeeker.process], [Decoder.decode],
    [Decoder._readEbmlHeader], [Decoder._getTagName], [Decoder._getTagType]
    and [AdvancedVideoCapture.sanitizeFilename], with the properties of the
    specification stated and settled against it.

    Around them, the [dataavailable] handler and [saveRecording], the timer
    text of [_startTimer], and, from the earlier version of the extension,
    the object-URL bookkeeping of the background page and the earlier
    [process] and [sanitizeFilename] are embedded too, with properties of
    their own at the end of the file.

    Conventions.
    - An [ArrayBuffer] is a [list byte]; offsets and lengths are [nat].
    - A JavaScript Number is an IEEE-754 binary64 value: a [spec_float] used
      with [prec = 53] and [emax = 1024]. It has one NaN; the bytes written
      for a NaN are the choice of the implementation, a [nan_encoding] that
      every function that writes a float takes as a parameter.
    - A JavaScript exception is the [Throw] outcome; a loop that has not
      finished within its fuel is [Diverge].
    - A JavaScript string is its sequence of UTF-16 code units, a [list Z]. *)

From Stdlib Require Import ZArith List Bool Lia String Ascii.
From Stdlib.Strings Require Import Byte.
From Stdlib Require Import SpecFloat.
From Stdlib Require Import DecimalString DecimalZ DecimalPos.
From stdpp Require Import base tactics option list strings gmap.

Import ListNotations.
Local Open Scope nat_scope.
Set Warnings "-register-all".

(** ** Outcomes of JavaScript computations *)

Inductive exn := RangeError.

Inductive outcome (A : Type) :=
  | Ok (a : A)
  | Throw (e : exn)
  | Diverge.
Arguments Ok {A} a.
Arguments Throw {A} e.
Arguments Diverge {A}.

Definition obind {A B} (m : outcome A) (k : A -> outcome B) : outcome B :=
  match m with
  | Ok a => k a
  | Throw e => Throw e
  | Diverge => Diverge
  end.

Notation "'letO' x := m 'in' k" := (obind m (fun x => k))
  (at level 10, x pattern, m at level 100, k at level 200).

(** ** Bytes and [DataView] *)

Definition byte_val (b : byte) : Z := Z.of_N (Byte.to_N b).

Definition byte_of_Z (z : Z) : byte :=
  match Byte.of_N (Z.to_N (z mod 256)) with
  | Some b => b
  | None => x00
  end.

(** [dataView.getUint8(offset)] *)
Definition getUint8 (dv : list byte) (offset : nat) : outcome Z :=
  match dv !! offset with
  | Some b => Ok (byte_val b)
  | None => Throw RangeError
  end.

(** [dataView.getUint32(offset, false)]: four bytes, big-endian. *)
Definition getUint32 (dv : list byte) (offset : nat) : outcome Z :=
  match take 4 (drop offset dv) with
  | [b0; b1; b2; b3] =>
      Ok (Z.lor (Z.shiftl (byte_val b0) 24)
         (Z.lor (Z.shiftl (byte_val b1) 16)
         (Z.lor (Z.shiftl (byte_val b2) 8) (byte_val b3))))
  | _ => Throw RangeError
  end.

(** The four bytes of a 32-bit pattern, most significant first. *)
Definition bytes_of_u32 (w : Z) : list byte :=
  [byte_of_Z (Z.shiftr w 24); byte_of_Z (Z.shiftr w 16);
   byte_of_Z (Z.shiftr w 8); byte_of_Z w].

(** The eight bytes of a 64-bit pattern, most significant first. *)
Definition bytes_of_u64 (w : Z) : list byte :=
  bytes_of_u32 (Z.shiftr w 32) ++ bytes_of_u32 w.

(** ** IEEE-754 numbers *)

(** ECMAScript cannot tell one NaN from another, so a Number has one NaN.
    Which NaN encoding is written when a NaN is stored is left to the
    implementation (NumericToRawBytes), and it may depend on how the NaN came
    about: an implementation can carry the sign and the payload of a NaN it
    read through the arithmetic, and give an invalid operation a NaN of
    either sign. The encoding written is therefore not computed here: it is
    a parameter of each write, a sign and a fraction that is not zero. *)
Record nan_encoding := NaNEncoding { nan_sign : bool; nan_payload : positive }.

(** The fraction field of a NaN on [mw] bits: from 1 to [2 ^ mw - 1]. A
    payload in that range is the fraction itself. *)
Definition nan_fraction (mw : Z) (nan : nan_encoding) : Z :=
  (1 + (Zpos (nan_payload nan) - 1) mod (2 ^ mw - 1))%Z.

(** The bit pattern of a value that is already in the binary interchange
    format with [mw] fraction bits and [ew] exponent bits; a NaN is written
    with the encoding [nan]. *)
Definition float_bits (mw ew : Z) (nan : nan_encoding) (x : spec_float) : Z :=
  let emin := (3 - 2 ^ (ew - 1) - (mw + 1))%Z in
  let sign_bit (s : bool) := if s then (2 ^ (mw + ew))%Z else 0%Z in
  match x with
  | S754_zero s => sign_bit s
  | S754_infinity s => (sign_bit s + (2 ^ ew - 1) * 2 ^ mw)%Z
  | S754_nan => (sign_bit (nan_sign nan) + (2 ^ ew - 1) * 2 ^ mw + nan_fraction mw nan)%Z
  | S754_finite s m e =>
      if (2 ^ mw <=? Zpos m)%Z
      then (sign_bit s + (e - emin + 1) * 2 ^ mw + (Zpos m - 2 ^ mw))%Z
      else (sign_bit s + Zpos m)%Z
  end.

Module F64.
Definition prec : Z := 53.
Definition emax : Z := 1024.
Definition mul := SFmul prec emax.
Definition div := SFdiv prec emax.
(** An integer literal or an unsigned integer as a Number. *)
Definition of_Z (z : Z) : spec_float := binary_normalize prec emax z 0 false.
(** Any finite value given by sign, mantissa and exponent, rounded to
    binary64 (exact when it fits). *)
Definition of_finite (s : bool) (m : positive) (e : Z) : spec_float :=
  binary_round prec emax s m e.
End F64.

Module F32.
Definition prec : Z := 24.
Definition emax : Z := 128.
Definition emin : Z := SpecFloat.emin prec emax.

(** The value denoted by a 32-bit pattern (sign, 8 exponent bits, 23
    fraction bits). Every NaN pattern denotes the one NaN of Numbers; what
    an implementation remembers of the pattern shows only in the encoding
    it writes for the NaN later, which [to_bits] takes as a parameter. *)
Definition of_bits (w : Z) : spec_float :=
  let s := Z.testbit w 31 in
  let ex := Z.land (Z.shiftr w 23) 255 in
  let fr := Z.land w (2 ^ 23 - 1) in
  if (ex =? 0)%Z then
    match fr with
    | Zpos m => S754_finite s m emin
    | _ => S754_zero s
    end
  else if (ex =? 255)%Z then
    (if (fr =? 0)%Z then S754_infinity s else S754_nan)
  else
    match (fr + 2 ^ 23)%Z with
    | Zpos m => S754_finite s m (ex + emin - 1)
    | _ => S754_nan
    end.

(** The 32-bit pattern of a value already in binary32 format; a NaN is
    written with the encoding [nan]. *)
Definition to_bits (nan : nan_encoding) (x : spec_float) : Z := float_bits 23 8 nan x.

(** The 32-bit pattern of the NaN in the encoding [nan]: sign, exponent
    bits all ones, and the fraction, which is not zero. *)
Definition nan_bits (nan : nan_encoding) : Z := to_bits nan S754_nan.

(** Rounding a Number to binary32, ties to even. *)
Definition round (x : spec_float) : spec_float :=
  match x with
  | S754_finite s m e => binary_round prec emax s m e
  | _ => x
  end.
End F32.

(** [dataView.getFloat32(offset, false)]: the binary32 value, as a Number. *)
Definition number_of_f32 (x : spec_float) : spec_float :=
  match x with
  | S754_finite s m e => F64.of_finite s m e
  | _ => x
  end.

Definition getFloat32 (dv : list byte) (offset : nat) : outcome spec_float :=
  letO w := getUint32 dv offset in
  Ok (number_of_f32 (F32.of_bits w)).

(** The bytes [setFloat32(0, x, false)] leaves in a fresh 4-byte buffer,
    in an implementation that writes a NaN with the encoding [nan]. *)
Definition float32_bytes (nan : nan_encoding) (x : spec_float) : list byte :=
  bytes_of_u32 (F32.to_bits nan (F32.round x)).

(** The big-endian binary64 encoding of a Number; the code never produces
    it, the specification asks for it when the Duration payload is 8 bytes
    wide. *)
Definition float64_bytes (nan : nan_encoding) (x : spec_float) : list byte :=
  bytes_of_u64 (float_bits 52 11 nan x).

(* Number conversions are evaluated on closed terms only. *)
Arguments float_bits : simpl never.
Arguments float64_bytes : simpl never.
Arguments number_of_f32 : simpl never.
Arguments float32_bytes : simpl never.
Arguments F32.of_bits : simpl never.
Arguments F32.to_bits : simpl never.
Arguments F32.nan_bits : simpl never.
Arguments F32.round : simpl never.
Arguments F64.of_Z : simpl never.
Arguments F64.of_finite : simpl never.
Arguments F64.mul : simpl never.
Arguments F64.div : simpl never.

(** ** Typed-array views: [new Uint8Array(buffer, byteOffset, length)] *)

Record view := View { byteOffset : nat; viewLength : nat }.

(** The constructor throws when the view would run past the buffer. *)
Definition Uint8Array (buffer : list byte) (off len : nat) : outcome view :=
  if decide (off + len <= length buffer) then Ok (View off len)
  else Throw RangeError.

(** [target.set(source)]: throws, before writing anything, when the source
    is longer than the target view; otherwise copies the source to the start
    of the view. The result is the content of the underlying buffer. *)
Definition view_set (buffer : list byte) (target : view) (source : list byte)
  : outcome (list byte) :=
  if decide (length source <= viewLength target)
  then Ok (list_inserts (byteOffset target) source buffer)
  else Throw RangeError.

(** ** The decoder *)

Inductive element := Element {
  name : string;
  type : string;
  dataOffset : nat;
  dataSize : nat;
  children : list element;
  value : option spec_float   (* [None] is [null] *)
}.

Record header := Header { id : Z; size : nat; headerLength : nat }.

(** [_readEbmlHeader(dataView, offset)] *)
Definition _readEbmlHeader (dataView : list byte) (offset : nat) : outcome header :=
  letO id := getUint32 dataView offset in
  letO sizeByte := getUint8 dataView (offset + 4) in
  Ok (Header id (Z.to_nat (Z.land sizeByte 0x7F)) 5).

(** The object literals of [_getTagName] and [_getTagType]. *)
Definition tagMap : gmap Z string :=
  {[ 0x18538067%Z := "Segment"; 0x1549A966%Z := "Info";
     0x2AD7B1%Z := "TimecodeScale"; 0x4489%Z := "Duration" ]}.

Definition typeMap : gmap Z string :=
  {[ 0x18538067%Z := "m"; 0x1549A966%Z := "m";
     0x2AD7B1%Z := "u"; 0x4489%Z := "f" ]}.

(** [tagMap[id] || 'Unknown'] *)
Definition _getTagName (id : Z) : string := default "Unknown" (tagMap !! id).

(** [typeMap[id] || 'b'] *)
Definition _getTagType (id : Z) : string := default "b" (typeMap !! id).

(** The value the loop body stores in [element.value]. *)
Definition read_value (dataView : list byte) (type : string) (dataOffset : nat)
  : outcome (option spec_float) :=
  if decide (type = "f") then
    letO v := getFloat32 dataView dataOffset in Ok (Some v)
  else if decide (type = "u") then
    letO n := getUint32 dataView dataOffset in Ok (Some (F64.of_Z n))
  else Ok None.

(** The [while (offset < buffer.byteLength)] loop of [decode]; [fuel] bounds
    the number of iterations. *)
Fixpoint scan (fuel : nat) (dataView : list byte) (offset : nat)
    (elements : list element) : outcome (list element) :=
  if decide (offset < length dataView) then
    match fuel with
    | 0 => Diverge
    | S fuel =>
        letO h := _readEbmlHeader dataView offset in
        let dataOffset := offset + headerLength h in
        let type := _getTagType (id h) in
        letO v := read_value dataView type dataOffset in
        let element := Element (_getTagName (id h)) type dataOffset (size h) [] v in
        scan fuel dataView (dataOffset + size h) (elements ++ [element])
    end
  else Ok elements.

(** [elements.find(e => e.name === n)], with the index of the object found. *)
Definition find_named (n : string) (elements : list element) : option (nat * element) :=
  list_find (fun e => name e = n) elements.

Definition push_children (e : element) (cs : list element) : element :=
  Element (name e) (type e) (dataOffset e) (dataSize e) (children e ++ cs) (value e).

(** The "manually constructed" tree. The objects of [elements] are shared:
    pushing onto [info.children] and [segment.children] changes the objects
    the array holds, so the array is returned with both replaced. *)
Definition build_tree (elements : list element) : list element :=
  match find_named "Segment" elements with
  | Some (si, segment) =>
      match find_named "Info" elements with
      | Some (ii, info) =>
          let duration := snd <$> find_named "Duration" elements in
          let timecode := snd <$> find_named "TimecodeScale" elements in
          let info := push_children info (option_list duration ++ option_list timecode) in
          let segment := push_children segment [info] in
          <[si := segment]> (<[ii := info]> elements)
      | None => elements
      end
  | None => elements
  end.

(** [decode(buffer)], the loop run with [fuel] iterations at most. *)
Definition decode_fuel (fuel : nat) (buffer : list byte) : outcome (list element) :=
  letO elements := scan fuel buffer 0 [] in
  Ok (build_tree elements).

(** [decode(buffer)]: one iteration per byte is more than the loop needs. *)
Definition decode (buffer : list byte) : outcome (list element) :=
  decode_fuel (length buffer) buffer.

(** ** The patcher: [WebMSeeker.process] *)

(** [ToNumber] of an [element.value]: [null] is [+0]. *)
Definition to_number (v : option spec_float) : spec_float :=
  default (S754_zero false) v.

(** [durationEl.value * timecodeScaleEl.value / 1000 / 1000] *)
Definition scaled_duration (d t : spec_float) : spec_float :=
  F64.div (F64.div (F64.mul d t) (F64.of_Z 1000)) (F64.of_Z 1000).
Arguments scaled_duration : simpl never.

(** [process(blob)]. The blob is immutable and [buffer] is the copy made by
    [blob.arrayBuffer()]; the result is the content of the returned blob.
    [nan] is the encoding the implementation writes in this call when the
    duration it computed is a NaN. *)
Definition process (nan : nan_encoding) (blob : list byte) : outcome (list byte) :=
  let buffer := blob in
  letO elms := decode buffer in
  let segmentEl := snd <$> find_named "Segment" elms in
  let infoEl :=
    match segmentEl with
    | Some segmentEl => snd <$> find_named "Info" (children segmentEl)
    | None => None
    end in
  match infoEl with
  | None => Ok blob
  | Some infoEl =>
      let durationEl := snd <$> find_named "Duration" (children infoEl) in
      let timecodeScaleEl := snd <$> find_named "TimecodeScale" (children infoEl) in
      match durationEl, timecodeScaleEl with
      | Some durationEl, Some timecodeScaleEl =>
          let duration :=
            scaled_duration (to_number (value durationEl))
                            (to_number (value timecodeScaleEl)) in
          let durationBuffer := float32_bytes nan duration in
          letO target := Uint8Array buffer (dataOffset durationEl) (dataSize durationEl) in
          view_set buffer target durationBuffer
      | _, _ => Ok buffer
      end
  end.

(** ** [AdvancedVideoCapture.sanitizeFilename] *)

Module Filename.
(** A string is its UTF-16 code units. *)
Definition jsstring := list Z.

Definition code (a : ascii) : Z := Z.of_N (N_of_ascii a).

Definition of_string (s : string) : jsstring := map code (list_ascii_of_string s).

(** The character class of the first [replace]: the nine punctuation
    characters (0x22 is the double quote) and the controls U+0000-U+001F. *)
Definition forbidden (c : Z) : bool :=
  (c =? code "<")%Z || (c =? code ">")%Z || (c =? code ":")%Z
  || (c =? 0x22)%Z || (c =? code "/")%Z || (c =? code "\")%Z
  || (c =? code "|")%Z || (c =? code "?")%Z || (c =? code "*")%Z
  || ((0 <=? c)%Z && (c <=? 0x1F)%Z).

(** ECMAScript WhiteSpace and LineTerminator: what [trim] strips and what
    [\s] matches. *)
Definition whitespace (c : Z) : bool :=
  ((0x09 <=? c)%Z && (c <=? 0x0D)%Z)
  || (c =? 0x20)%Z || (c =? 0xA0)%Z || (c =? 0x1680)%Z
  || ((0x2000 <=? c)%Z && (c <=? 0x200A)%Z)
  || (c =? 0x2028)%Z || (c =? 0x2029)%Z || (c =? 0x202F)%Z
  || (c =? 0x205F)%Z || (c =? 0x3000)%Z || (c =? 0xFEFF)%Z.

Definition underscore : Z := code "_".

(** The class [[\s_]]. *)
Definition space_or_underscore (c : Z) : bool :=
  whitespace c || (c =? underscore)%Z.

(** The first [.replace(..., '')]: every forbidden code unit is removed. *)
Definition remove_forbidden (s : jsstring) : jsstring :=
  List.filter (fun c => negb (forbidden c)) s.

Fixpoint trim_start (s : jsstring) : jsstring :=
  match s with
  | c :: r => if whitespace c then trim_start r else s
  | [] => []
  end.

(** [.trim()] *)
Definition trim (s : jsstring) : jsstring :=
  rev (trim_start (rev (trim_start s))).

(** [.substring(0, maxLength)]: the end index is clamped to [0, length]. *)
Definition substring0 (s : jsstring) (maxLength : Z) : jsstring :=
  take (Z.to_nat maxLength) s.

(** [.replace(/[\s_]+/g, '_')]: [in_run] tells that the previous code unit
    belonged to the run being replaced. *)
Fixpoint collapse (in_run : bool) (s : jsstring) : jsstring :=
  match s with
  | [] => []
  | c :: r =>
      if space_or_underscore c
      then (if in_run then collapse true r else underscore :: collapse true r)
      else c :: collapse false r
  end.

Definition fallback : jsstring := of_string "video_capture".

Definition sanitizeFilename (title : jsstring) (maxLength : Z) : jsstring :=
  let sanitized :=
    collapse false (substring0 (trim (remove_forbidden title)) maxLength) in
  match sanitized with
  | [] => fallback          (* [sanitized || 'video_capture'] *)
  | _ => sanitized
  end.

(** The default value of the second parameter. *)
Definition default_maxLength : Z := 50.

(** No two neighbouring code units are both underscores. *)
Fixpoint single_underscores (s : jsstring) : Prop :=
  match s with
  | c :: ((d :: _) as r) => ~ (c = underscore /\ d = underscore) /\ single_underscores r
  | _ => True
  end.
End Filename.

(** ** Vocabulary of the statements *)

Definition known_id (i : Z) : Prop :=
  i = 0x18538067%Z \/ i = 0x1549A966%Z \/ i = 0x2AD7B1%Z \/ i = 0x4489%Z.

(** Name and type are read off the same identifier, so they go together. *)
Definition tag_of (e : element) : Prop :=
  (name e = "Segment" /\ type e = "m") \/
  (name e = "Info" /\ type e = "m") \/
  (name e = "TimecodeScale" /\ type e = "u") \/
  (name e = "Duration" /\ type e = "f") \/
  (name e = "Unknown" /\ type e = "b").

(** One iteration of the loop body: the element pushed and the next offset. *)
Definition scan_body (dataView : list byte) (offset : nat) : outcome (element * nat) :=
  letO h := _readEbmlHeader dataView offset in
  let dataOffset := offset + headerLength h in
  let type := _getTagType (id h) in
  letO v := read_value dataView type dataOffset in
  Ok (Element (_getTagName (id h)) type dataOffset (size h) [] v, dataOffset + size h).

(** The elements pushed by a run of the loop that starts at [offset]: each
    payload starts 5 bytes after the cursor, and the cursor moves to the end
    of the declared payload. *)
Fixpoint laid_out (offset : nat) (elements : list element) : Prop :=
  match elements with
  | [] => True
  | e :: rest =>
      dataOffset e = offset + 5 /\ dataSize e <= 127 /\
      laid_out (dataOffset e + dataSize e) rest
  end.

(** The element named [n] that [process] looks up: the first Segment of the
    array, then the first Info among its children, then the first [n] among
    the children of that Info. *)
Definition located (n : string) (elms : list element) : option element :=
  match snd <$> find_named "Segment" elms with
  | Some segmentEl =>
      match snd <$> find_named "Info" (children segmentEl) with
      | Some infoEl => snd <$> find_named n (children infoEl)
      | None => None
      end
  | None => None
  end.

(** A payload of at most 127 bytes that starts after a 5-byte header. *)
Definition placed (e : element) : Prop := dataSize e <= 127 /\ 5 <= dataOffset e.

(** Name, payload offset and declared size of every element, in order. *)
Definition outline (elements : list element) : list (string * nat * nat) :=
  (fun e => (name e, dataOffset e, dataSize e)) <$> elements.

(** An element with another value, and the array in which the element whose
    payload starts at [p] has the value [v]. *)
Definition with_value (e : element) (v : option spec_float) : element :=
  Element (name e) (type e) (dataOffset e) (dataSize e) (children e) v.

Definition reread (p : nat) (v : spec_float) (elements : list element) : list element :=
  (fun e => if decide (dataOffset e = p) then with_value e (Some v) else e) <$> elements.

(** The binary64 representation of [n * 2 ^ e], for [n] of at most 53 bits:
    the mantissa is shifted up to 53 bits. *)
Definition canon64 (s : bool) (n e : Z) : spec_float :=
  S754_finite s (Z.to_pos (n * 2 ^ (53 - Zdigits2 n))) (e - (53 - Zdigits2 n)).

(** A 32-bit pattern that denotes a NaN: exponent bits all ones and a
    fraction that is not zero. *)
Definition is_nan_bits (w : Z) : bool :=
  ((w / 2 ^ 23) mod 256 =? 255)%Z && negb (w mod 2 ^ 23 =? 0)%Z.

(** The pattern [setFloat32] writes for the value a 32-bit pattern denotes:
    the pattern itself, except that a NaN is written with the encoding
    [nan] the implementation chooses. *)
Definition rewritten_bits (nan : nan_encoding) (w : Z) : Z :=
  if is_nan_bits w then F32.nan_bits nan else w.

(** The encoding the specification asks for: a float as wide as the
    declared payload, 4 or 8 bytes. *)
Definition spec_duration_bytes (nan : nan_encoding) (width : nat) (x : spec_float)
  : option (list byte) :=
  if decide (width = 4) then Some (float32_bytes nan x)
  else if decide (width = 8) then Some (float64_bytes nan x)
  else None.


(** The width the specification gives a variable-length integer (section
    4.1): one more than the number of leading zero bits of its first byte,
    and none when that byte is 0x00. *)
Definition spec_vint_width (lead : byte) : option nat :=
  let v := byte_val lead in
  if (v =? 0)%Z then None else Some (8 - Z.to_nat (Z.log2 v)).

(** ** Sample buffers *)

(** Segment and Info headers with empty payloads, then a TimecodeScale and a
    Duration element with the given size bytes and payloads. Identifiers are
    written on four bytes, as the reader expects them. *)
Definition sample (scale : list byte) (dsize : byte) (duration : list byte) : list byte :=
  [x18; x53; x80; x67; x80] ++ [x15; x49; xa9; x66; x80] ++
  [x00; x2a; xd7; xb1; x84] ++ scale ++
  [x00; x00; x44; x89; dsize] ++ duration.

(** TimecodeScale 1,000,000 and a 4-byte Duration of 5000.0. *)
Definition sample_1ms : list byte :=
  sample [x00; x0f; x42; x40] x84 [x45; x9c; x40; x00].

(** TimecodeScale 2,000,000 and a 4-byte Duration of 5000.0. *)
Definition sample_2ms : list byte :=
  sample [x00; x1e; x84; x80] x84 [x45; x9c; x40; x00].

(** TimecodeScale 2,000,000 and an 8-byte Duration of 5000.0. *)
Definition sample_wide : list byte :=
  sample [x00; x1e; x84; x80] x88 [x40; xb3; x88; x00; x00; x00; x00; x00].

(** TimecodeScale 1,000,000 and a 4-byte Duration holding a signalling NaN. *)
Definition sample_nan : list byte :=
  sample [x00; x0f; x42; x40] x84 [x7f; x80; x00; x01].

(** The first three bytes of an EBML header and nothing more. *)
Definition truncated : list byte := [x1a; x45; xdf].

(** A complete EBML header element start: 4-byte identifier and size byte. *)
Definition ebml_start : list byte := [x1a; x45; xdf; xa3; x9f].

(** Three NaN encodings: the positive quiet NaN with an empty payload,
    7F C0 00 00; the NaN of [sample_nan] made quiet, 7F C0 00 01, which an
    implementation that carries the payload of the NaN it read writes; and
    the negative quiet NaN, FF C0 00 00, which x86-64 gives an invalid
    operation. *)
Definition nan_plain : nan_encoding := NaNEncoding false 0x400000.
Definition nan_carried : nan_encoding := NaNEncoding false 0x400001.
Definition nan_negative : nan_encoding := NaNEncoding true 0x400000.

(** ** Vocabulary of the further properties *)

(** The end of the declared payload of an element: where the loop goes on. *)
Definition payload_end (e : element) : nat := dataOffset e + dataSize e.

(** The offset at which the loop stopped, when it started at [off] and
    pushed [elements]. *)
Definition cursor (off : nat) (elements : list element) : nat :=
  default off (payload_end <$> last elements).

(** The number of payload bytes the loop reads for an element: four for a
    float or an unsigned integer, none for the other types. *)
Definition bytes_read (e : element) : nat :=
  if decide (type e = "f" \/ type e = "u") then 4 else 0.

(** A position inside the declared payload of an element of the array,
    behind the bytes the loop reads. *)
Definition skipped (elements : list element) (i : nat) : Prop :=
  exists j e, elements !! j = Some e /\
    dataOffset e + bytes_read e <= i < dataOffset e + dataSize e.

(** An element of a buffer, seen with [k] more bytes in front of the
    buffer. *)
Definition shift (k : nat) (e : element) : element :=
  Element (name e) (type e) (k + dataOffset e) (dataSize e) (children e) (value e).

(** The pattern of a signed zero. *)
Definition zero_bits (s : bool) : Z := if s then 0x80000000%Z else 0%Z.

(** The pattern written for [x * 0 / 1000 / 1000]: a zero with the sign of
    [x] when [x] is zero or finite; otherwise the product is a NaN, written
    with the encoding [nan] the implementation chooses. *)
Definition times_zero_bits (nan : nan_encoding) (x : spec_float) : Z :=
  match x with
  | S754_zero s | S754_finite s _ _ => zero_bits s
  | _ => F32.nan_bits nan
  end.

(** The elements of [sample_2ms] the other way round: Duration and
    TimecodeScale first, then Info, then Segment. *)
Definition sample_unordered : list byte :=
  [x00; x00; x44; x89; x84] ++ [x45; x9c; x40; x00] ++
  [x00; x2a; xd7; xb1; x84] ++ [x00; x1e; x84; x80] ++
  [x15; x49; xa9; x66; x80] ++ [x18; x53; x80; x67; x80].

(** TimecodeScale 0 and a 4-byte Duration of 5000.0. *)
Definition sample_0ms : list byte :=
  sample [x00; x00; x00; x00] x84 [x45; x9c; x40; x00].

(** ** Recording: the [dataavailable] handler and [saveRecording] *)

Module Recording.
Import Filename.

(** The message sent to the background page. The object URL made by
    [URL.createObjectURL] stands for the content of its blob. *)
Record message := DOWNLOAD_VIDEO { url : list byte; filename : jsstring }.

(** [(e) => e.data.size > 0 && this.chunks.push(e.data)]: [this.chunks]
    after the event. *)
Definition ondataavailable (chunks : list (list byte)) (data : list byte)
  : list (list byte) :=
  if decide (0 < length data) then chunks ++ [data] else chunks.

(** [new Blob(this.chunks, ...)]: the parts, one after the other. *)
Definition Blob (parts : list (list byte)) : list byte := concat parts.

(** [saveRecording()], with [document.title] as [title] and no event served
    while [process] is awaited: the messages sent when it completes, and
    [this.chunks] afterwards. [nan] is the NaN encoding of the
    implementation in the call of [process]. *)
Definition saveRecording (nan : nan_encoding) (chunks : list (list byte))
    (title : jsstring) : outcome (list message) * list (list byte) :=
  match chunks with
  | [] => (Ok [], chunks)
  | _ =>
      let blob := Blob chunks in
      match process nan blob with
      | Ok seekableBlob =>
          (Ok [DOWNLOAD_VIDEO seekableBlob
                 (sanitizeFilename title default_maxLength ++ of_string ".webm")],
           [])
      | Throw e => (Throw e, chunks)
      | Diverge => (Diverge, chunks)
      end
  end.

(** [this.chunks] after the [dataavailable] events of a recording, which
    starts with [this.chunks = []]. *)
Definition recorded (datas : list (list byte)) : list (list byte) :=
  foldl ondataavailable [] datas.
End Recording.

(** ** The timer text of [_startTimer] *)

Module Timer.
(** The numbers of seconds the callback computes: integers that a Number
    holds exactly. On them [Math.floor(elapsed / 60)] is the integer
    quotient, and [toString] writes plain decimal digits. *)
Definition whole_seconds (elapsed : Z) : Prop := (0 <= elapsed < 2 ^ 53)%Z.

(** [n.toString()] of an integer: its decimal digits, after a minus sign
    when it is negative. *)
Definition toString (n : Z) : string := NilZero.string_of_int (Z.to_int n).

(** [s.padStart(2, '0')] *)
Definition padStart2 (s : string) : string :=
  match String.length s with
  | 0 => "00"
  | 1 => String "0" s
  | _ => s
  end.

(** The text the interval callback shows for [elapsed] seconds, the value of
    [Math.floor((Date.now() - startTime) / 1000)]: minutes and seconds, each
    padded to two characters, with a colon between them. *)
Definition timer_text (elapsed : Z) : string :=
  let minutes := padStart2 (toString (elapsed / 60)) in
  let seconds := padStart2 (toString (Z.rem elapsed 60)) in
  String.append minutes (String ":" seconds).

(** The integer a string of decimal digits stands for. *)
Definition number_of (s : string) : option Z :=
  Z.of_int <$> NilZero.int_of_string s.
End Timer.

(** ** The background page of the earlier version: object URLs *)

Module Downloads.
(** The calls of [URL.revokeObjectURL], in order. *)
Definition revoked := list string.

(** The callback given to [chrome.downloads.download] for a request with the
    given [url]. [downloadId] is [None] for [undefined]; 0 is not truthy
    either. The result is the map [objectUrls] and the URLs revoked. *)
Definition download_callback (objectUrls : gmap Z string) (url : string)
    (downloadId : option Z) : gmap Z string * revoked :=
  match downloadId with
  | Some i =>
      if decide (i = 0%Z) then (objectUrls, [url])
      else (<[i := url]> objectUrls, [])
  | None => (objectUrls, [url])
  end.

(** The argument of the [onChanged] listener: the download and, when its
    state changed, [delta.state.current] ([None] when that is missing). *)
Record delta := Delta { delta_id : Z; delta_state : option (option string) }.

(** The [chrome.downloads.onChanged] listener. *)
Definition onChanged (objectUrls : gmap Z string) (d : delta)
  : gmap Z string * revoked :=
  match delta_state d with
  | Some current =>
      match objectUrls !! delta_id d with
      | Some url =>
          if decide (current = Some "complete" \/ current = Some "interrupted")
          then (delete (delta_id d) objectUrls, [url])
          else (objectUrls, [])
      | None => (objectUrls, [])
      end
  | None => (objectUrls, [])
  end.

Inductive event :=
  | Started (url : string) (downloadId : option Z)
  | Changed (d : delta).

Definition handle (objectUrls : gmap Z string) (e : event) : gmap Z string * revoked :=
  match e with
  | Started url downloadId => download_callback objectUrls url downloadId
  | Changed d => onChanged objectUrls d
  end.

(** The two listeners served on a sequence of events, from a given map. *)
Fixpoint run (objectUrls : gmap Z string) (events : list event) : gmap Z string * revoked :=
  match events with
  | [] => (objectUrls, [])
  | e :: rest =>
      let '(m, r) := handle objectUrls e in
      let '(m', r') := run m rest in
      (m', r ++ r')
  end.

(** The URLs handed to the callback, and the identifiers it stored them
    under. *)
Definition started_urls (events : list event) : list string :=
  omap (fun e => match e with Started url _ => Some url | Changed _ => None end) events.


(** The URLs the map holds. *)
Definition tracked (objectUrls : gmap Z string) : list string :=
  (map_to_list objectUrls).*2.

(** Two downloads that start, one that does not, and the first one
    completing, reported twice. *)
Definition sample_session : list event :=
  [Started "blob:a" (Some 7%Z); Started "blob:b" None;
   Changed (Delta 7 None); Changed (Delta 7 (Some (Some "in_progress")));
   Started "blob:c" (Some 8%Z);
   Changed (Delta 7 (Some (Some "complete"))); Changed (Delta 7 (Some (Some "complete")))].
End Downloads.

(** ** The earlier version of the content script *)

Module Earlier.
Import Filename.

(** [ToNumber] of a property that may be missing: [undefined] is NaN. *)
Definition to_number (v : option spec_float) : spec_float := default S754_nan v.

(** The earlier [process]. Its decoder runs the same loop and builds the
    same tree, but gives no [value] to an element that is neither a float
    nor an unsigned integer: for it, [None] is [undefined]. [nan] is the
    NaN encoding of the implementation, as for the current [process]. *)
Definition process (nan : nan_encoding) (blob : list byte) : outcome (list byte) :=
  let buffer := blob in
  letO elms := decode buffer in
  match snd <$> find_named "Segment" elms with
  | None => Ok blob
  | Some segmentEl =>
      if decide (type segmentEl <> "m") then Ok blob else
      match snd <$> find_named "Info" (children segmentEl) with
      | None => Ok blob
      | Some infoEl =>
          if decide (type infoEl <> "m") then Ok blob else
          match snd <$> find_named "Duration" (children infoEl) with
          | None => Ok blob
          | Some durationEl =>
              match snd <$> find_named "TimecodeScale" (children infoEl) with
              | None => Ok blob
              | Some timecodeScaleEl =>
                  if decide (type timecodeScaleEl <> "u") then Ok blob else
                  let timecodeScale := to_number (value timecodeScaleEl) in
                  let duration :=
                    scaled_duration (to_number (value durationEl)) timecodeScale in
                  let durationBuffer := float32_bytes nan duration in
                  letO originalDurationData :=
                    Uint8Array buffer (dataOffset durationEl) (dataSize durationEl) in
                  view_set buffer originalDurationData durationBuffer
              end
          end
      end
  end.

(** The earlier [sanitizeFilename]: the title is cut only when it is longer
    than [maxLength]. *)
Definition sanitizeFilename (originalTitle : jsstring) (maxLength : Z) : jsstring :=
  let sanitizedTitle := trim (remove_forbidden originalTitle) in
  let sanitizedTitle :=
    if decide (maxLength < Z.of_nat (length sanitizedTitle))%Z
    then substring0 sanitizedTitle maxLength
    else sanitizedTitle in
  let sanitizedTitle := collapse false sanitizedTitle in
  match sanitizedTitle with
  | [] => fallback
  | _ => sanitizedTitle
  end.
End Earlier.

(** * Properties *)

(** ** [DataView] reads *)

Lemma Ok_inj {A} (a b : A) : Ok a = Ok b -> a = b.
Proof. by intros [= ->]. Qed.

Lemma testbit_small lo k : (0 <= lo < 2 ^ k)%Z -> Z.testbit lo k = false.
Proof.
  intros H. destruct (decide (lo = 0%Z)) as [->|N]; [apply Z.bits_0|].
  apply Z.bits_above_log2; [lia|]. apply Z.log2_lt_pow2; lia.
Qed.

Lemma lor_shiftl_add hi lo n :
  (0 <= n)%Z -> (0 <= lo < 2 ^ n)%Z -> Z.lor (Z.shiftl hi n) lo = (hi * 2 ^ n + lo)%Z.
Proof.
  intros Hn Hlo.
  assert (Z.land (Z.shiftl hi n) lo = 0%Z) as Hd.
  { apply Z.bits_inj'. intros k Hk. rewrite Z.land_spec, Z.bits_0.
    destruct (Z.lt_ge_cases k n).
    - by rewrite Z.shiftl_spec_low.
    - rewrite (testbit_small lo k), andb_false_r; [done|].
      pose proof (Z.pow_le_mono_r 2 n k). lia. }
  rewrite <- Z.lxor_lor, <- Z.add_nocarry_lxor, Z.shiftl_mul_pow2 by done. done.
Qed.

Lemma byte_val_range b : (0 <= byte_val b < 256)%Z.
Proof.
  unfold byte_val. pose proof (Byte.to_N_bounded b) as H. lia.
Qed.

Lemma getUint8_Ok dv off :
  off < length dv -> exists b, dv !! off = Some b /\ getUint8 dv off = Ok (byte_val b).
Proof.
  intros H. destruct (lookup_lt_is_Some_2 dv off H) as [b Hb].
  exists b. unfold getUint8. by rewrite Hb.
Qed.

Lemma getUint8_Throw dv off :
  length dv <= off -> getUint8 dv off = Throw RangeError.
Proof.
  intros H. unfold getUint8. by rewrite (lookup_ge_None_2 dv off H).
Qed.

Lemma take4_drop_length (dv : list byte) off :
  length (take 4 (drop off dv)) = Nat.min 4 (length dv - off).
Proof. by rewrite length_take, length_drop. Qed.

Lemma getUint32_Throw dv off :
  length dv < off + 4 -> getUint32 dv off = Throw RangeError.
Proof.
  intros H. unfold getUint32. pose proof (take4_drop_length dv off) as L.
  destruct (take 4 (drop off dv)) as [|b0 [|b1 [|b2 [|b3 [|b4 r]]]]];
    cbn [length] in L; try reflexivity; lia.
Qed.

Lemma getUint32_Ok dv off :
  off + 4 <= length dv ->
  exists b0 b1 b2 b3,
    take 4 (drop off dv) = [b0; b1; b2; b3] /\
    getUint32 dv off =
      Ok (Z.lor (Z.shiftl (byte_val b0) 24)
         (Z.lor (Z.shiftl (byte_val b1) 16)
         (Z.lor (Z.shiftl (byte_val b2) 8) (byte_val b3)))).
Proof.
  intros H. unfold getUint32. pose proof (take4_drop_length dv off) as L.
  destruct (take 4 (drop off dv)) as [|b0 [|b1 [|b2 [|b3 [|b4 r]]]]];
    cbn [length] in L; try lia.
  by exists b0, b1, b2, b3.
Qed.

Lemma getUint32_not_Diverge dv off : getUint32 dv off <> Diverge.
Proof.
  unfold getUint32.
  by destruct (take 4 (drop off dv)) as [|b0 [|b1 [|b2 [|b3 [|b4 r]]]]].
Qed.

Lemma getUint32_inv dv off n :
  getUint32 dv off = Ok n -> off + 4 <= length dv.
Proof.
  intros H. destruct (decide (off + 4 <= length dv)) as [|N]; [done|].
  rewrite getUint32_Throw in H by lia. discriminate.
Qed.

Lemma getFloat32_inv dv off x :
  getFloat32 dv off = Ok x -> off + 4 <= length dv.
Proof.
  unfold getFloat32. destruct (getUint32 dv off) eqn:E; cbn [obind]; try discriminate.
  intros _. by eapply getUint32_inv.
Qed.

(** ** The header reader *)

Lemma size_mask_bound z : Z.to_nat (Z.land z 0x7F) <= 127.
Proof.
  change 0x7F%Z with (Z.ones 7). rewrite Z.land_ones by lia.
  pose proof (Z.mod_pos_bound z (2 ^ 7)) as H. lia.
Qed.

Lemma readEbmlHeader_inv dv off h :
  _readEbmlHeader dv off = Ok h ->
  headerLength h = 5 /\ size h <= 127 /\ off + 5 <= length dv.
Proof.
  unfold _readEbmlHeader.
  destruct (getUint32 dv off) as [i| |] eqn:E1; simpl; try discriminate.
  destruct (decide (off + 4 < length dv)) as [L|L].
  - destruct (getUint8_Ok dv (off + 4) L) as (b & _ & ->). simpl.
    intros [= <-]. simpl. split; [done|]. split; [apply size_mask_bound|lia].
  - rewrite getUint8_Throw by lia. discriminate.
Qed.

Lemma readEbmlHeader_not_Diverge dv off : _readEbmlHeader dv off <> Diverge.
Proof.
  unfold _readEbmlHeader.
  destruct (getUint32 dv off) as [i| |] eqn:E1; simpl; try discriminate.
  - unfold getUint8. by destruct (dv !! (off + 4)).
  - by apply getUint32_not_Diverge in E1.
Qed.

Lemma readEbmlHeader_short dv off :
  length dv < off + 5 -> _readEbmlHeader dv off = Throw RangeError.
Proof.
  intros H. unfold _readEbmlHeader.
  destruct (decide (off + 4 <= length dv)) as [L|L].
  - destruct (getUint32_Ok dv off L) as (b0 & b1 & b2 & b3 & _ & ->). simpl.
    by rewrite getUint8_Throw by lia.
  - by rewrite getUint32_Throw by lia.
Qed.

Lemma readEbmlHeader_long dv off :
  off + 5 <= length dv ->
  exists b0 b1 b2 b3 b4,
    take 5 (drop off dv) = [b0; b1; b2; b3; b4] /\
    _readEbmlHeader dv off =
      Ok (Header
            (Z.lor (Z.shiftl (byte_val b0) 24)
              (Z.lor (Z.shiftl (byte_val b1) 16)
              (Z.lor (Z.shiftl (byte_val b2) 8) (byte_val b3))))
            (Z.to_nat (Z.land (byte_val b4) 0x7F)) 5).
Proof.
  intros H. unfold _readEbmlHeader.
  destruct (getUint32_Ok dv off) as (b0 & b1 & b2 & b3 & T & ->); [lia|]. simpl.
  destruct (getUint8_Ok dv (off + 4)) as (b4 & L4 & ->); [lia|]. simpl.
  exists b0, b1, b2, b3, b4. split; [|done].
  rewrite <- (take_drop off dv) in L4.
  rewrite lookup_app_r in L4 by (rewrite length_take; lia).
  rewrite length_take in L4. replace (off + 4 - off `min` length dv) with 4 in L4 by lia.
  destruct (drop off dv) as [|c0 [|c1 [|c2 [|c3 [|c4 r]]]]]; simpl in *; try discriminate.
  by simplify_eq.
Qed.

(** ** The tag dictionary *)


Lemma getTagName_unknown i : ~ known_id i -> _getTagName i = "Unknown".
Proof.
  unfold known_id, _getTagName, tagMap. intros H.
  rewrite !lookup_insert_ne, lookup_singleton_ne by (intros ?; subst; tauto). done.
Qed.

Lemma getTagType_unknown i : ~ known_id i -> _getTagType i = "b".
Proof.
  unfold known_id, _getTagType, typeMap. intros H.
  rewrite !lookup_insert_ne, lookup_singleton_ne by (intros ?; subst; tauto). done.
Qed.

Lemma known_id_dec i : {known_id i} + {~ known_id i}.
Proof. unfold known_id. destruct (decide (i = 0x18538067%Z \/ i = 0x1549A966%Z \/ i = 0x2AD7B1%Z \/ i = 0x4489%Z)); auto. Qed.


Lemma tag_cases i :
  (_getTagName i = "Segment" /\ _getTagType i = "m") \/
  (_getTagName i = "Info" /\ _getTagType i = "m") \/
  (_getTagName i = "TimecodeScale" /\ _getTagType i = "u") \/
  (_getTagName i = "Duration" /\ _getTagType i = "f") \/
  (_getTagName i = "Unknown" /\ _getTagType i = "b").
Proof.
  destruct (known_id_dec i) as [[-> | [-> | [-> | ->]]] | N].
  - left. by vm_compute.
  - right; left. by vm_compute.
  - right; right; left. by vm_compute.
  - right; right; right; left. by vm_compute.
  - right; right; right; right. auto using getTagName_unknown, getTagType_unknown.
Qed.

(** ** The scan loop *)


Lemma scan_unfold fuel dv off acc :
  scan fuel dv off acc =
    if decide (off < length dv) then
      match fuel with
      | 0 => Diverge
      | S fuel => letO p := scan_body dv off in scan fuel dv (snd p) (acc ++ [fst p])
      end
    else Ok acc.
Proof.
  destruct fuel; simpl; [done|]. case_decide; [|done].
  unfold scan_body. destruct (_readEbmlHeader dv off); simpl; try done.
  by destruct (read_value dv _ _).
Qed.

Lemma scan_exit fuel dv off acc : length dv <= off -> scan fuel dv off acc = Ok acc.
Proof. intros H. rewrite scan_unfold. case_decide; [lia|done]. Qed.

Lemma read_value_not_Diverge dv ty off : read_value dv ty off <> Diverge.
Proof.
  unfold read_value, getFloat32. pose proof (getUint32_not_Diverge dv off).
  repeat case_decide; destruct (getUint32 dv off); simpl; congruence.
Qed.

Lemma scan_body_not_Diverge dv off : scan_body dv off <> Diverge.
Proof.
  unfold scan_body. pose proof (readEbmlHeader_not_Diverge dv off).
  destruct (_readEbmlHeader dv off) as [h| |]; simpl; try congruence.
  pose proof (read_value_not_Diverge dv (_getTagType (id h)) (off + headerLength h)).
  destruct (read_value dv _ _); simpl; congruence.
Qed.

(** What an iteration that completes has produced. *)
Lemma scan_body_inv dv off e next :
  scan_body dv off = Ok (e, next) ->
  off + 5 <= length dv /\ dataOffset e = off + 5 /\ dataSize e <= 127 /\
  next = dataOffset e + dataSize e /\ children e = [] /\ tag_of e /\
  read_value dv (type e) (off + 5) = Ok (value e).
Proof.
  unfold scan_body.
  destruct (_readEbmlHeader dv off) as [h| |] eqn:Eh; simpl; try discriminate.
  destruct (readEbmlHeader_inv _ _ _ Eh) as (HL & Hs & Hlen). rewrite HL.
  destruct (read_value dv _ _) as [v| |] eqn:Ev; simpl; try discriminate.
  intros [= <- <-]. simpl. repeat split; try done. apply tag_cases.
Qed.

Lemma scan_no_Diverge fuel : forall dv off acc,
  length dv <= off + 5 * fuel -> scan fuel dv off acc <> Diverge.
Proof.
  induction fuel as [|fuel IH]; intros dv off acc H; rewrite scan_unfold.
  - case_decide; [lia|done].
  - case_decide; [|done].
    pose proof (scan_body_not_Diverge dv off).
    destruct (scan_body dv off) as [[e next]| |] eqn:E; simpl; try congruence.
    apply scan_body_inv in E as (? & ? & ? & ? & _). apply IH. lia.
Qed.

Lemma scan_fuel_mono fuel : forall fuel' dv off acc,
  fuel <= fuel' -> scan fuel dv off acc <> Diverge ->
  scan fuel' dv off acc = scan fuel dv off acc.
Proof.
  induction fuel as [|fuel IH]; intros fuel' dv off acc Hle H;
    rewrite (scan_unfold fuel'); rewrite scan_unfold in H; rewrite scan_unfold.
  - case_decide; [done|done].
  - case_decide; [|done]. destruct fuel' as [|fuel']; [lia|].
    destruct (scan_body dv off) as [[e next]| |]; simpl in *; try done.
    apply IH; [lia|done].
Qed.

(** The loop only appends to the array it was given. *)
Lemma scan_acc fuel : forall dv off acc,
  scan fuel dv off acc = letO new := scan fuel dv off [] in Ok (acc ++ new).
Proof.
  induction fuel as [|fuel IH]; intros dv off acc; rewrite !(scan_unfold _ dv off).
  - case_decide; simpl; [done|]. by rewrite app_nil_r.
  - case_decide; simpl; [|by rewrite app_nil_r].
    destruct (scan_body dv off) as [[e next]| |]; simpl; try done.
    rewrite (IH dv next (acc ++ [e])), (IH dv next [e]).
    destruct (scan fuel dv next []); simpl; try done.
    by rewrite <- app_assoc.
Qed.

(** Offsets and sizes of what the loop pushes. *)
Lemma scan_laid_out fuel : forall dv off els,
  scan fuel dv off [] = Ok els ->
  laid_out off els /\ Forall (fun e => children e = [] /\ tag_of e) els.
Proof.
  induction fuel as [|fuel IH]; intros dv off els; rewrite scan_unfold.
  - case_decide; [done|]. intros [= <-]. by split.
  - case_decide; [|intros [= <-]; by split].
    destruct (scan_body dv off) as [[e next]| |] eqn:E; simpl; try done.
    rewrite scan_acc.
    destruct (scan fuel dv next []) as [new| |] eqn:En; simpl; try done.
    intros [= <-]. apply scan_body_inv in E as (? & ? & ? & -> & ? & ? & _).
    destruct (IH _ _ _ En) as [IH1 IH2].
    split; [by simpl|]. by constructor.
Qed.

(** ** The tree *)

Lemma push_children_offsets e cs :
  dataOffset (push_children e cs) = dataOffset e /\
  dataSize (push_children e cs) = dataSize e /\
  name (push_children e cs) = name e /\
  type (push_children e cs) = type e /\
  value (push_children e cs) = value e.
Proof. by destruct e. Qed.

Lemma find_named_Some n els i e :
  find_named n els = Some (i, e) ->
  els !! i = Some e /\ name e = n /\ forall j y, els !! j = Some y -> j < i -> name y <> n.
Proof. unfold find_named. by rewrite list_find_Some. Qed.

Lemma find_named_name n els i e : find_named n els = Some (i, e) -> name e = n.
Proof. intros H. by apply find_named_Some in H as (_ & ? & _). Qed.

Lemma find_named_elem n els i e : find_named n els = Some (i, e) -> els !! i = Some e.
Proof. intros H. by apply find_named_Some in H as (? & _). Qed.

Lemma find_named_insert_same n (els : list element) i e e' :
  els !! i = Some e -> name e' = name e ->
  find_named n (<[i := e']> els) =
    (fun p => (fst p, if decide (fst p = i) then e' else snd p)) <$> find_named n els.
Proof.
  revert i. induction els as [|a els IH]; intros [|i] Hi Hn; simpl in *; try done.
  - simplify_eq. unfold find_named; simpl. rewrite Hn.
    destruct (decide (name e = n)); simpl; [done|].
    destruct (list_find _ els) as [[j y]|]; simpl; done.
  - unfold find_named in *. simpl. destruct (decide (name a = n)); simpl; [done|].
    rewrite (IH i Hi Hn). destruct (list_find _ els) as [[j y]|]; simpl; [|done].
    destruct (decide (j = i)), (decide (S j = S i)); try done; lia.
Qed.

(** Building the tree changes [children] only, at two places at most. *)
Lemma build_tree_shape els :
  length (build_tree els) = length els /\
  forall i e', build_tree els !! i = Some e' ->
    exists e, els !! i = Some e /\ name e' = name e /\ type e' = type e /\
      dataOffset e' = dataOffset e /\ dataSize e' = dataSize e /\ value e' = value e.
Proof.
  unfold build_tree.
  destruct (find_named "Segment" els) as [[si segment]|] eqn:Es;
    [|split; [done|]; intros i e' H; by exists e'].
  destruct (find_named "Info" els) as [[ii info]|] eqn:Ei;
    [|split; [done|]; intros i e' H; by exists e'].
  apply find_named_Some in Es as (Hs & _). apply find_named_Some in Ei as (Hi & _).
  split; [by rewrite !length_insert|].
  intros i e' H.
  destruct (decide (i = si)) as [->|Ns].
  - rewrite list_lookup_insert_eq in H by (rewrite length_insert; by eapply lookup_lt_Some).
    simplify_eq. exists segment. split; [done|]. by destruct segment.
  - rewrite list_lookup_insert_ne in H by done.
    destruct (decide (i = ii)) as [->|Ni].
    + rewrite list_lookup_insert_eq in H by (by eapply lookup_lt_Some).
      simplify_eq. exists info. split; [done|]. by destruct info.
    + rewrite list_lookup_insert_ne in H by done. by exists e'.
Qed.

Lemma outline_build_tree els : outline (build_tree els) = outline els.
Proof.
  destruct (build_tree_shape els) as [HL Hsh]. unfold outline.
  apply list_eq. intros i. rewrite !list_lookup_fmap.
  destruct (build_tree els !! i) as [e'|] eqn:E'; simpl.
  - destruct (Hsh _ _ E') as (e & -> & -> & _ & -> & -> & _). done.
  - apply lookup_ge_None in E'. rewrite HL in E'. apply lookup_ge_None in E'.
    by rewrite E'.
Qed.

(** The children hung into the tree are elements of the array. *)
Lemma build_tree_children (P : element -> Prop) els :
  (forall e cs, P e -> P (push_children e cs)) ->
  Forall (fun e => P e /\ children e = []) els ->
  Forall (fun e => P e /\ Forall (fun c => P c /\ Forall P (children c)) (children e))
    (build_tree els).
Proof.
  intros HP HF.
  assert (Forall (fun e => P e /\
            Forall (fun c => P c /\ Forall P (children c)) (children e)) els) as HQ.
  { eapply Forall_impl; [exact HF|]. intros e [? Hc]. split; [done|].
    rewrite Hc. constructor. }
  rewrite Forall_lookup in HF.
  assert (forall n i e, find_named n els = Some (i, e) -> P e /\ children e = []) as Hfound.
  { intros n i e H. apply find_named_elem in H. by apply (HF i). }
  assert (forall n, Forall (fun c => P c /\ Forall P (children c))
                      (option_list (snd <$> find_named n els))) as Hopt.
  { intros n. destruct (find_named n els) as [[i e]|] eqn:E; simpl; [|constructor].
    destruct (Hfound _ _ _ E) as [? Hc].
    constructor; [|constructor]. split; [done|]. rewrite Hc. constructor. }
  unfold build_tree.
  destruct (find_named "Segment" els) as [[si seg]|] eqn:Es; [|done].
  destruct (find_named "Info" els) as [[ii info]|] eqn:Ei; [|done].
  destruct (Hfound _ _ _ Es) as [Ps Cs]. destruct (Hfound _ _ _ Ei) as [Pi Ci].
  assert (Forall (fun c => P c /\ Forall P (children c))
            (children (push_children info
               (option_list (snd <$> find_named "Duration" els) ++
                option_list (snd <$> find_named "TimecodeScale" els))))) as Hic.
  { destruct info; simpl in *. subst. simpl. apply Forall_app. by split. }
  apply Forall_insert; [apply Forall_insert; [done|]|].
  - split; [by apply HP|done].
  - split; [by apply HP|]. destruct seg; simpl in *. subst. simpl.
    constructor; [|constructor]. split; [by apply HP|].
    eapply Forall_impl; [exact Hic|]. by intros c [? _].
Qed.

Lemma laid_out_ext (l1 : list element) : forall l2 off,
  length l1 = length l2 ->
  (forall i e1, l1 !! i = Some e1 ->
     exists e2, l2 !! i = Some e2 /\ dataOffset e1 = dataOffset e2 /\ dataSize e1 = dataSize e2) ->
  laid_out off l2 -> laid_out off l1.
Proof.
  induction l1 as [|a l1 IH]; intros [|b l2] off HL H Hl; simpl in *; try done.
  destruct (H 0 a eq_refl) as (e2 & [= <-] & -> & ->).
  destruct Hl as (? & ? & Hl). repeat split; try done.
  apply (IH l2); [lia| |exact Hl].
  intros i e1 Hi. exact (H (S i) e1 Hi).
Qed.

(** ** What [process] finds in the tree *)

(** The patch [process] applies once both elements are found. *)
Lemma process_located nan blob :
  process nan blob =
    letO elms := decode blob in
    match located "Duration" elms, located "TimecodeScale" elms with
    | Some d, Some t =>
        letO target := Uint8Array blob (dataOffset d) (dataSize d) in
        view_set blob target
          (float32_bytes nan (scaled_duration (to_number (value d)) (to_number (value t))))
    | _, _ => Ok blob
    end.
Proof.
  unfold process, located. destruct (decode blob) as [elms| |]; simpl; try done.
  destruct (find_named "Segment" elms) as [[si seg]|]; simpl; [|done].
  destruct (find_named "Info" (children seg)) as [[ii info]|]; simpl; [|done].
  destruct (find_named "Duration" (children info)) as [[di d]|]; simpl; [|done].
  by destruct (find_named "TimecodeScale" (children info)) as [[ti t]|].
Qed.

(** In the tree built from what the loop pushed, the elements found under
    Segment and Info are the first Duration and the first TimecodeScale of
    the flat array, provided a Segment and an Info exist anywhere in it. *)
Lemma located_build_tree n els :
  Forall (fun e => children e = [] /\ tag_of e) els ->
  n = "Duration" \/ n = "TimecodeScale" ->
  located n (build_tree els) =
    match find_named "Segment" els, find_named "Info" els with
    | Some _, Some _ => snd <$> find_named n els
    | _, _ => None
    end.
Proof.
  intros HF Hn. rewrite Forall_lookup in HF. unfold located, build_tree.
  destruct (find_named "Segment" els) as [[si seg]|] eqn:Es; simpl; [|by rewrite Es].
  pose proof (find_named_elem _ _ _ _ Es) as Hsi.
  pose proof (find_named_name _ _ _ _ Es) as Hsn.
  destruct (HF _ _ Hsi) as [Hsc _].
  destruct (find_named "Info" els) as [[ii info]|] eqn:Ei; simpl.
  2:{ rewrite Es. simpl. by rewrite Hsc. }
  pose proof (find_named_elem _ _ _ _ Ei) as Hii.
  pose proof (find_named_name _ _ _ _ Ei) as Hin.
  destruct (HF _ _ Hii) as [Hic _].
  assert (si <> ii) as Hne by (intros ->; simplify_eq; congruence).
  set (cs := option_list (snd <$> find_named "Duration" els) ++
             option_list (snd <$> find_named "TimecodeScale" els)).
  rewrite (find_named_insert_same "Segment" _ si seg).
  2:{ by rewrite list_lookup_insert_ne. }
  2:{ by destruct seg. }
  rewrite (find_named_insert_same "Segment" _ ii info) by (done || by destruct info).
  rewrite Es. simpl. rewrite decide_True by done. simpl.
  rewrite Hsc. simpl. unfold find_named at 1. simpl.
  rewrite decide_True by (by destruct info). simpl. rewrite Hic. simpl.
  subst cs.
  destruct Hn as [-> | ->];
    destruct (find_named "Duration" els) as [[di d]|] eqn:Ed;
    destruct (find_named "TimecodeScale" els) as [[ti t]|] eqn:Et; simpl;
    repeat match goal with
    | H : find_named _ _ = Some _ |- _ => apply find_named_name in H
    end;
    unfold find_named; simpl;
    repeat (destruct (decide _) as [?|?]; simpl; try congruence); try done.
Qed.

(** Every value in the array was read at the element's own payload offset. *)
Lemma scan_values fuel : forall dv off els,
  scan fuel dv off [] = Ok els ->
  Forall (fun e => read_value dv (type e) (dataOffset e) = Ok (value e)) els.
Proof.
  induction fuel as [|fuel IH]; intros dv off els; rewrite scan_unfold.
  - case_decide; [done|]. by intros [= <-].
  - case_decide; [|by intros [= <-]].
    destruct (scan_body dv off) as [[e next]| |] eqn:E; simpl; try done.
    rewrite scan_acc.
    destruct (scan fuel dv next []) as [new| |] eqn:En; simpl; try done.
    intros [= <-]. apply scan_body_inv in E as (? & Ho & ? & -> & ? & ? & Hv).
    constructor; [by rewrite Ho|]. by eapply IH.
Qed.

Lemma decode_Ok buffer elms :
  decode buffer = Ok elms <->
  exists els, scan (length buffer) buffer 0 [] = Ok els /\ elms = build_tree els.
Proof.
  unfold decode, decode_fuel.
  destruct (scan (length buffer) buffer 0 []) as [els| |]; simpl; split.
  - intros [= <-]. by exists els.
  - intros (els' & [= <-] & ->). done.
  - done.
  - by intros (? & ? & _).
  - done.
  - by intros (? & ? & _).
Qed.

Lemma decode_not_Diverge buffer : decode buffer <> Diverge.
Proof.
  unfold decode, decode_fuel.
  pose proof (scan_no_Diverge (length buffer) buffer 0 []) as H.
  destruct (scan (length buffer) buffer 0 []); simpl; try done. apply H. lia.
Qed.

Lemma laid_out_lookup els : forall off i e,
  laid_out off els -> els !! i = Some e ->
  off + 5 <= dataOffset e /\ dataSize e <= 127.
Proof.
  induction els as [|a els IH]; intros off [|i] e Hl H; simpl in *; try done.
  - simplify_eq. lia.
  - destruct Hl as (? & ? & Hl). destruct (IH _ _ _ Hl H). lia.
Qed.

(** The Duration and TimecodeScale that [process] reaches through the tree
    carry the values the loop read at their payload offsets. *)
Lemma located_values buffer elms d t :
  decode buffer = Ok elms ->
  located "Duration" elms = Some d -> located "TimecodeScale" elms = Some t ->
  exists raw scale,
    getFloat32 buffer (dataOffset d) = Ok raw /\ value d = Some raw /\
    getUint32 buffer (dataOffset t) = Ok scale /\ value t = Some (F64.of_Z scale) /\
    5 <= dataOffset d /\ dataSize d <= 127.
Proof.
  rewrite decode_Ok. intros (els & Hs & ->).
  destruct (scan_laid_out _ _ _ _ Hs) as [Hl HF].
  pose proof (scan_values _ _ _ _ Hs) as HV.
  rewrite !located_build_tree by auto.
  destruct (find_named "Segment" els) as [[si seg]|]; [|done].
  destruct (find_named "Info" els) as [[ii info]|]; [|done].
  destruct (find_named "Duration" els) as [[di d']|] eqn:Ed; simpl; [|done].
  destruct (find_named "TimecodeScale" els) as [[ti t']|] eqn:Et; simpl; [|done].
  intros [= ->] [= ->].
  apply find_named_Some in Ed as (Hd & Hdn & _).
  apply find_named_Some in Et as (Ht & Htn & _).
  rewrite Forall_lookup in HF, HV.
  destruct (HF _ _ Hd) as [_ Td]. destruct (HF _ _ Ht) as [_ Tt].
  pose proof (HV _ _ Hd) as Vd. pose proof (HV _ _ Ht) as Vt.
  assert (type d = "f") as Hdt
    by (destruct Td as [[? ?]|[[? ?]|[[? ?]|[[? ?]|[? ?]]]]]; congruence).
  assert (type t = "u") as Htt
    by (destruct Tt as [[? ?]|[[? ?]|[[? ?]|[[? ?]|[? ?]]]]]; congruence).
  rewrite Hdt in Vd. rewrite Htt in Vt. unfold read_value in Vd, Vt.
  rewrite decide_True in Vd by done.
  rewrite decide_False, decide_True in Vt by done.
  destruct (getFloat32 buffer (dataOffset d)) as [raw| |]; simpl in Vd; try done.
  destruct (getUint32 buffer (dataOffset t)) as [scale| |]; simpl in Vt; try done.
  exists raw, scale. simplify_eq.
  destruct (laid_out_lookup _ _ _ _ Hl Hd). repeat split; try done; lia.
Qed.

Lemma length_float32_bytes nan x : length (float32_bytes nan x) = 4.
Proof. done. Qed.

(** ** The outcomes of [process] *)

Lemma process_not_Diverge nan blob : process nan blob <> Diverge.
Proof.
  rewrite process_located. pose proof (decode_not_Diverge blob).
  destruct (decode blob) as [elms| |]; simpl; try done.
  destruct (located "Duration" elms) as [d|]; [|done].
  destruct (located "TimecodeScale" elms) as [t|]; [|done].
  unfold Uint8Array, view_set. repeat (case_decide; simpl); done.
Qed.

(** The three ways [process] ends once [decode] has returned. *)
Lemma process_cases nan blob elms :
  decode blob = Ok elms ->
  match located "Duration" elms, located "TimecodeScale" elms with
  | Some d, Some t =>
      if decide (4 <= dataSize d /\ dataOffset d + dataSize d <= length blob)
      then process nan blob =
             Ok (list_inserts (dataOffset d)
                   (float32_bytes nan (scaled_duration (to_number (value d)) (to_number (value t))))
                   blob)
      else process nan blob = Throw RangeError
  | _, _ => process nan blob = Ok blob
  end.
Proof.
  intros H. rewrite process_located, H. simpl.
  destruct (located "Duration" elms) as [d|]; [|done].
  destruct (located "TimecodeScale" elms) as [t|]; [|done].
  unfold Uint8Array, view_set. rewrite length_float32_bytes.
  repeat (case_decide; simpl); try done; lia.
Qed.

Lemma process_length nan blob out : process nan blob = Ok out -> length out = length blob.
Proof.
  intros H. destruct (decode blob) as [elms| |] eqn:Hd.
  2,3: rewrite process_located, Hd in H; done.
  pose proof (process_cases nan _ _ Hd) as Hc.
  destruct (located "Duration" elms) as [d|]; [|by rewrite Hc in H; apply Ok_inj in H; subst].
  destruct (located "TimecodeScale" elms) as [t|]; [|by rewrite Hc in H; apply Ok_inj in H; subst].
  case_decide; rewrite Hc in H; [|done]. apply Ok_inj in H. subst out.
  apply length_inserts.
Qed.

(** ** What the loop reads *)

Lemma window_eq (b b' : list byte) off n :
  (forall i, off <= i < off + n -> b' !! i = b !! i) ->
  take n (drop off b') = take n (drop off b).
Proof.
  intros H. apply list_eq. intros i. destruct (decide (i < n)).
  - rewrite !lookup_take_lt, !lookup_drop by done. apply H. lia.
  - by rewrite !lookup_take_ge by lia.
Qed.

Lemma getUint32_ext dv dv' off :
  take 4 (drop off dv') = take 4 (drop off dv) -> getUint32 dv' off = getUint32 dv off.
Proof. unfold getUint32. by intros ->. Qed.

Lemma readEbmlHeader_ext dv dv' off :
  take 5 (drop off dv') = take 5 (drop off dv) ->
  _readEbmlHeader dv' off = _readEbmlHeader dv off.
Proof.
  intros H. unfold _readEbmlHeader.
  rewrite (getUint32_ext dv dv' off).
  2:{ change 4 with (4 `min` 5).
      by rewrite <- (take_take (drop off dv')), <- (take_take (drop off dv)), H. }
  assert (dv' !! (off + 4) = dv !! (off + 4)) as H4.
  { rewrite <- (lookup_drop dv' off 4), <- (lookup_drop dv off 4).
    rewrite <- (lookup_take_lt (drop off dv') 5 4), <- (lookup_take_lt (drop off dv) 5 4) by lia.
    by rewrite H. }
  unfold getUint8. by rewrite H4.
Qed.

Lemma read_value_ext dv dv' ty off :
  take 4 (drop off dv') = take 4 (drop off dv) ->
  read_value dv' ty off = read_value dv ty off.
Proof.
  intros H. unfold read_value, getFloat32. by rewrite (getUint32_ext dv dv' off H).
Qed.

Lemma scan_body_ext dv dv' off :
  (forall i, off <= i < off + 9 -> dv' !! i = dv !! i) ->
  scan_body dv' off = scan_body dv off.
Proof.
  intros H. unfold scan_body.
  rewrite (readEbmlHeader_ext dv dv' off) by (apply window_eq; intros; apply H; lia).
  destruct (_readEbmlHeader dv off) as [h| |] eqn:Eh; simpl; try done.
  destruct (readEbmlHeader_inv _ _ _ Eh) as (-> & _).
  rewrite (read_value_ext dv dv') by (apply window_eq; intros; apply H; lia).
  done.
Qed.

(** The loop never looks behind its cursor. *)
Lemma scan_agree_after fuel : forall (b b' : list byte) off acc,
  length b' = length b ->
  (forall i, off <= i -> b' !! i = b !! i) ->
  scan fuel b' off acc = scan fuel b off acc.
Proof.
  induction fuel as [|fuel IH]; intros b b' off acc HL H; rewrite !(scan_unfold _ _ off), HL.
  - done.
  - case_decide; [|done].
    rewrite (scan_body_ext b b') by (intros; apply H; lia).
    destruct (scan_body b off) as [[e next]| |] eqn:E; simpl; try done.
    apply scan_body_inv in E as (_ & ? & _ & ? & _).
    apply IH; [done|]. intros. apply H. lia.
Qed.

Lemma laid_out_after els : forall off i e,
  laid_out off els -> els !! i = Some e -> off + 5 <= dataOffset e.
Proof. intros off i e H1 H2. by destruct (laid_out_lookup _ _ _ _ H1 H2). Qed.

Lemma reread_above p v els off :
  laid_out off els -> p < off + 5 -> reread p v els = els.
Proof.
  intros Hl Hp. unfold reread. apply list_eq. intros i. rewrite list_lookup_fmap.
  destruct (els !! i) as [e|] eqn:E; simpl; [|done].
  pose proof (laid_out_after _ _ _ _ Hl E). by rewrite decide_False by lia.
Qed.

(** Overwriting the first four payload bytes of a float element changes the
    value the loop reads for it and nothing else. *)
Lemma scan_patch (b b' : list byte) p fuel : forall off els i d,
  length b' = length b ->
  (forall j, j < p \/ p + 4 <= j -> b' !! j = b !! j) ->
  scan fuel b off [] = Ok els ->
  els !! i = Some d -> dataOffset d = p -> 4 <= dataSize d -> type d = "f" ->
  p + 4 <= length b ->
  exists v, getFloat32 b' p = Ok v /\ scan fuel b' off [] = Ok (reread p v els).
Proof.
  induction fuel as [|fuel IH]; intros off els i d HL Hag Hs Hi Hp H4 Hty Hlen;
    rewrite scan_unfold in Hs.
  - case_decide; [done|]. by simplify_eq.
  - case_decide as Hoff; [|by simplify_eq].
    destruct (scan_body b off) as [[e next]| |] eqn:E; simpl in Hs; try done.
    rewrite scan_acc in Hs.
    destruct (scan fuel b next []) as [rest| |] eqn:Er; simpl in Hs; try done.
    apply Ok_inj in Hs. subst els.
    destruct (scan_laid_out _ _ _ _ Er) as [Hlr _].
    pose proof E as E0.
    apply scan_body_inv in E as (Ho5 & Hdo & Hsz & Hnext & Hch & Htag & Hval).
    rewrite scan_unfold, HL, decide_True by done.
    destruct i as [|i]; simpl in Hi.
    + assert (e = d) as -> by congruence.
      destruct (getUint32_Ok b' p) as (c0 & c1 & c2 & c3 & _ & Hw); [lia|].
      eexists. split; [unfold getFloat32; rewrite Hw; reflexivity|].
      assert (scan_body b' off =
                Ok (with_value d (Some (number_of_f32 (F32.of_bits
                      (Z.lor (Z.shiftl (byte_val c0) 24)
                        (Z.lor (Z.shiftl (byte_val c1) 16)
                        (Z.lor (Z.shiftl (byte_val c2) 8) (byte_val c3))))))), next)) as E'.
      { unfold scan_body in E0 |- *.
        rewrite (readEbmlHeader_ext b b' off) by (apply window_eq; intros; apply Hag; lia).
        destruct (_readEbmlHeader b off) as [h| |] eqn:Eh; simpl in E0 |- *; try done.
        destruct (readEbmlHeader_inv _ _ _ Eh) as (Hh & _). rewrite Hh in E0 |- *.
        destruct (read_value b (_getTagType (id h)) (off + 5)) as [v0| |];
          simpl in E0; try done.
        apply Ok_inj in E0. injection E0 as <- <-. simpl in *.
        subst p. rewrite Hty. unfold read_value. rewrite decide_True by done.
        unfold getFloat32. rewrite Hw. reflexivity. }
      rewrite E'. simpl. rewrite scan_acc.
      rewrite (scan_agree_after fuel b b') by (done || (intros; apply Hag; lia)).
      rewrite Er. simpl. f_equal. unfold reread. simpl.
      rewrite decide_True by done. f_equal.
      symmetry. apply (reread_above p _ rest next); [done|lia].
    + pose proof (laid_out_after _ _ _ _ Hlr Hi) as Hge.
      rewrite (scan_body_ext b b') by (intros; apply Hag; lia).
      rewrite E0. simpl. rewrite scan_acc.
      destruct (IH next rest i d HL Hag Er Hi Hp H4 Hty Hlen) as (v & Hv & Hsc).
      exists v. split; [done|]. rewrite Hsc. simpl. f_equal.
      unfold reread. simpl. by rewrite decide_False by lia.
Qed.

Lemma find_named_reread n p v els :
  find_named n (reread p v els) =
    prod_map Datatypes.id
      (fun e => if decide (dataOffset e = p) then with_value e (Some v) else e)
      <$> find_named n els.
Proof.
  unfold find_named, reread. rewrite list_find_fmap. f_equal.
  induction els as [|a els IH]; simpl; [done|].
  assert (name (if decide (dataOffset a = p) then with_value a (Some v) else a) = name a) as ->
    by (by case_decide).
  destruct (decide (name a = n)); [done|]. by rewrite IH.
Qed.

Lemma laid_out_increasing els : forall off i j e1 e2,
  laid_out off els -> els !! i = Some e1 -> els !! j = Some e2 -> i < j ->
  dataOffset e1 < dataOffset e2.
Proof.
  induction els as [|a els IH]; intros off i j e1 e2 Hl H1 H2 Hij; [done|].
  destruct Hl as (Ha & _ & Hl). destruct j as [|j]; [lia|]. simpl in H2.
  destruct i as [|i]; simpl in H1.
  - simplify_eq. pose proof (laid_out_after _ _ _ _ Hl H2). lia.
  - eapply (IH _ i j); eauto. lia.
Qed.

Lemma laid_out_inj els off i j e1 e2 :
  laid_out off els -> els !! i = Some e1 -> els !! j = Some e2 ->
  dataOffset e1 = dataOffset e2 -> i = j.
Proof.
  intros Hl H1 H2 He. destruct (Nat.lt_trichotomy i j) as [L|[E|L]]; [|done|].
  - pose proof (laid_out_increasing _ _ _ _ _ _ Hl H1 H2 L). lia.
  - pose proof (laid_out_increasing _ _ _ _ _ _ Hl H2 H1 L). lia.
Qed.

(** After any four bytes have been written at the start of the Duration
    payload, [decode] returns the same elements at the same places, the
    Duration with the value of the new bytes. *)
Lemma decode_after_patch (b k : list byte) elms d t :
  decode b = Ok elms ->
  located "Duration" elms = Some d -> located "TimecodeScale" elms = Some t ->
  4 <= dataSize d -> dataOffset d + dataSize d <= length b -> length k = 4 ->
  exists v elms',
    getFloat32 (list_inserts (dataOffset d) k b) (dataOffset d) = Ok v /\
    decode (list_inserts (dataOffset d) k b) = Ok elms' /\
    located "Duration" elms' = Some (with_value d (Some v)) /\
    located "TimecodeScale" elms' = Some t /\
    outline elms' = outline elms.
Proof.
  intros Hd Ed Et H4 Hin Hk. set (p := dataOffset d). set (b' := list_inserts p k b).
  assert (length b' = length b) as HL by apply length_inserts.
  assert (forall j, j < p \/ p + 4 <= j -> b' !! j = b !! j) as Hag.
  { intros j [?|?]; [by apply list_lookup_inserts_lt|].
    apply list_lookup_inserts_ge. lia. }
  apply decode_Ok in Hd as (els & Hs & ->).
  destruct (scan_laid_out _ _ _ _ Hs) as [Hl HF].
  rewrite located_build_tree in Ed, Et by auto.
  destruct (find_named "Segment" els) as [[si seg]|] eqn:Es; [|done].
  destruct (find_named "Info" els) as [[ii info]|] eqn:Ei; [|done].
  destruct (find_named "Duration" els) as [[di d']|] eqn:Edd; simpl in Ed; [|done].
  destruct (find_named "TimecodeScale" els) as [[ti t']|] eqn:Ett; simpl in Et; [|done].
  assert (d' = d) as -> by congruence. assert (t' = t) as -> by congruence.
  pose proof (find_named_elem _ _ _ _ Edd) as Hdi.
  pose proof (find_named_elem _ _ _ _ Ett) as Hti.
  pose proof (find_named_name _ _ _ _ Edd) as Hdn.
  pose proof (find_named_name _ _ _ _ Ett) as Htn.
  rewrite Forall_lookup in HF.
  assert (type d = "f") as Hty.
  { destruct (HF _ _ Hdi) as [_ Td].
    destruct Td as [[? ?]|[[? ?]|[[? ?]|[[? ?]|[? ?]]]]]; congruence. }
  destruct (scan_patch b b' p (length b) 0 els di d HL Hag Hs Hdi eq_refl H4 Hty)
    as (v & Hv & Hs'); [lia|].
  exists v, (build_tree (reread p v els)). split; [done|].
  split; [apply decode_Ok; exists (reread p v els); by rewrite HL|].
  assert (scan (length b') b' 0 [] = Ok (reread p v els)) as Hs'' by (by rewrite HL).
  destruct (scan_laid_out _ _ _ _ Hs'') as [_ HF'].
  assert (dataOffset t <> p) as Hne.
  { intros He. assert (ti = di) as -> by (by eapply (laid_out_inj els 0 ti di t d)).
    assert (t = d) by congruence. subst t. congruence. }
  split; [|split].
  - rewrite located_build_tree, !find_named_reread by auto.
    rewrite Es, Ei, Edd. simpl. by rewrite decide_True by done.
  - rewrite located_build_tree, !find_named_reread by auto.
    rewrite Es, Ei, Ett. simpl. by rewrite decide_False by done.
  - rewrite !outline_build_tree. unfold outline, reread. rewrite <- list_fmap_compose.
    apply list_fmap_ext. intros i e _. simpl. by case_decide.
Qed.

(** So [process] finds the same two elements again, reads the Duration
    value from the new bytes and patches the same place. *)
Lemma process_after_patch nan (b k : list byte) elms d t :
  decode b = Ok elms ->
  located "Duration" elms = Some d -> located "TimecodeScale" elms = Some t ->
  4 <= dataSize d -> dataOffset d + dataSize d <= length b -> length k = 4 ->
  exists raw',
    getFloat32 (list_inserts (dataOffset d) k b) (dataOffset d) = Ok raw' /\
    process nan (list_inserts (dataOffset d) k b) =
      Ok (list_inserts (dataOffset d)
            (float32_bytes nan (scaled_duration raw' (to_number (value t))))
            (list_inserts (dataOffset d) k b)).
Proof.
  intros Hd Ed Et H4 Hin Hk.
  destruct (decode_after_patch b k elms d t Hd Ed Et H4 Hin Hk)
    as (v & elms' & Hv & Hd' & Ed' & Et' & _).
  exists v. split; [done|].
  pose proof (process_cases nan _ _ Hd') as Hc. rewrite Ed', Et' in Hc.
  rewrite decide_True in Hc by (rewrite length_inserts; split; [exact H4|exact Hin]).
  exact Hc.
Qed.

(** ** Exact binary64 and binary32 operations

    The operations of [SpecFloat] on mantissas whose low bits are zero: what
    is shifted out is zero, so nothing is rounded. *)

Section ExactRounding.
Local Open Scope Z_scope.
Variables prec emax : Z.

Lemma digits2_pos_bounds p :
  (2 ^ (Zpos (digits2_pos p) - 1) <= Zpos p < 2 ^ Zpos (digits2_pos p))%Z.
Proof.
  induction p as [p IH|p IH|]; simpl digits2_pos.
  - rewrite Pos2Z.inj_succ. replace (Z.succ (Zpos (digits2_pos p)) - 1)%Z
      with (Z.succ (Zpos (digits2_pos p) - 1)) by lia.
    rewrite !Z.pow_succ_r by lia. lia.
  - rewrite Pos2Z.inj_succ. replace (Z.succ (Zpos (digits2_pos p)) - 1)%Z
      with (Z.succ (Zpos (digits2_pos p) - 1)) by lia.
    rewrite !Z.pow_succ_r by lia. lia.
  - simpl. lia.
Qed.

Lemma Zdigits2_bounds n :
  (0 < n)%Z -> (0 < Zdigits2 n /\ 2 ^ (Zdigits2 n - 1) <= n < 2 ^ Zdigits2 n)%Z.
Proof.
  destruct n as [|p|p]; try lia. intros _. simpl Zdigits2.
  split; [lia|apply digits2_pos_bounds].
Qed.

Lemma Zdigits2_unique n d :
  (2 ^ (d - 1) <= n < 2 ^ d)%Z -> (0 < n)%Z -> Zdigits2 n = d.
Proof.
  intros H Hn. destruct (Zdigits2_bounds n Hn) as [Hd Hb].
  assert (0 < d)%Z as Hdp.
  { destruct (Z.lt_ge_cases 0 d); [done|].
    rewrite (Z.pow_neg_r 2 (d - 1)) in H by lia.
    assert (2 ^ d <= 1)%Z; [|lia].
    destruct (Z.eq_dec d 0) as [->|]; [simpl; lia|]. rewrite Z.pow_neg_r; lia. }
  destruct (Z.lt_trichotomy (Zdigits2 n) d) as [L|[E|L]]; [|done|].
  - pose proof (Z.pow_le_mono_r 2 (Zdigits2 n) (d - 1)). lia.
  - pose proof (Z.pow_le_mono_r 2 d (Zdigits2 n - 1)). lia.
Qed.

Lemma Zdigits2_mul_pow2 n k :
  (0 < n)%Z -> (0 <= k)%Z -> Zdigits2 (n * 2 ^ k) = (Zdigits2 n + k)%Z.
Proof.
  intros Hn Hk. destruct (Zdigits2_bounds n Hn) as [Hd Hb].
  pose proof (Z.pow_pos_nonneg 2 k) as Hp.
  apply Zdigits2_unique; [|nia].
  replace (Zdigits2 n + k - 1)%Z with ((Zdigits2 n - 1) + k)%Z by lia.
  rewrite !Z.pow_add_r by lia. nia.
Qed.

Lemma Zdigits2_mul a b :
  (0 < a)%Z -> (0 < b)%Z ->
  (Zdigits2 a + Zdigits2 b - 1 <= Zdigits2 (a * b) <= Zdigits2 a + Zdigits2 b)%Z.
Proof.
  intros Ha Hb.
  destruct (Zdigits2_bounds a Ha) as [Hda Hba].
  destruct (Zdigits2_bounds b Hb) as [Hdb Hbb].
  destruct (Zdigits2_bounds (a * b)) as [Hd Hab]; [nia|].
  assert (2 ^ (Zdigits2 a - 1 + (Zdigits2 b - 1)) <= a * b)%Z as H1
    by (rewrite Z.pow_add_r by lia; nia).
  assert (a * b < 2 ^ (Zdigits2 a + Zdigits2 b))%Z as H2
    by (rewrite Z.pow_add_r by lia; nia).
  split.
  - destruct (Z.lt_ge_cases (Zdigits2 (a * b)) (Zdigits2 a + Zdigits2 b - 1)) as [L|]; [|lia].
    pose proof (Z.pow_le_mono_r 2 (Zdigits2 (a * b)) (Zdigits2 a - 1 + (Zdigits2 b - 1))). lia.
  - destruct (Z.lt_ge_cases (Zdigits2 a + Zdigits2 b) (Zdigits2 (a * b))) as [L|]; [|lia].
    pose proof (Z.pow_le_mono_r 2 (Zdigits2 a + Zdigits2 b) (Zdigits2 (a * b) - 1)). lia.
Qed.

Lemma shr_1_even a :
  (0 <= a)%Z ->
  shr_1 (Build_shr_record (2 * a) false false) = Build_shr_record a false false.
Proof. destruct a as [|p|p]; try lia; reflexivity. Qed.

Lemma pow2_xO p : 2 ^ Zpos p~0 = 2 ^ Zpos p * 2 ^ Zpos p.
Proof. rewrite <- Z.pow_add_r by lia. f_equal. lia. Qed.

Lemma pow2_xI p : 2 ^ Zpos p~1 = 2 * (2 ^ Zpos p * 2 ^ Zpos p).
Proof. rewrite <- Z.pow_add_r, <- Z.pow_succ_r by lia. f_equal. lia. Qed.

Lemma iter_shr_1_exact p : forall a,
  (0 <= a)%Z ->
  SpecFloat.iter_pos shr_1 p (Build_shr_record (a * 2 ^ Zpos p) false false) =
    Build_shr_record a false false.
Proof.
  induction p as [p IH|p IH|]; intros a Ha; cbn [SpecFloat.iter_pos].
  - replace (a * 2 ^ Zpos p~1)%Z with (2 * ((a * 2 ^ Zpos p) * 2 ^ Zpos p))%Z.
    2:{ rewrite pow2_xI. ring. }
    rewrite shr_1_even by nia. rewrite IH by nia. by apply IH.
  - replace (a * 2 ^ Zpos p~0)%Z with ((a * 2 ^ Zpos p) * 2 ^ Zpos p)%Z.
    2:{ rewrite pow2_xO. ring. }
    rewrite IH by nia. by apply IH.
  - replace (a * 2 ^ 1)%Z with (2 * a)%Z by lia. by apply shr_1_even.
Qed.

Lemma shr_exact a e k :
  (0 <= a)%Z -> (0 <= k)%Z ->
  shr (Build_shr_record (a * 2 ^ k) false false) e k =
    (Build_shr_record a false false, (e + k)%Z).
Proof.
  intros Ha Hk. destruct k as [|p|p]; try lia; unfold shr.
  - by rewrite Z.mul_1_r, Z.add_0_r.
  - by rewrite iter_shr_1_exact.
Qed.

(** Rounding a mantissa [m0 * 2 ^ k] whose significant part [m0] is already
    in the format returns [m0] at the shifted exponent. *)
Lemma binary_round_aux_exact s mx m0 k ex :
  mx = (Zpos m0 * 2 ^ k)%Z -> (0 <= k)%Z ->
  canonical_mantissa prec emax m0 (ex + k) = true ->
  (ex + k <= emax - prec)%Z ->
  binary_round_aux prec emax s mx ex loc_Exact = S754_finite s m0 (ex + k).
Proof.
  intros -> Hk Hc Hle. unfold canonical_mantissa in Hc. apply Z.eqb_eq in Hc.
  unfold binary_round_aux, shr_fexp.
  rewrite Zdigits2_mul_pow2 by lia. simpl Zdigits2.
  replace (Zpos (digits2_pos m0) + k + ex)%Z with (Zpos (digits2_pos m0) + (ex + k))%Z by lia.
  rewrite Hc. replace (ex + k - ex)%Z with k by lia.
  simpl shr_record_of_loc. rewrite shr_exact by lia.
  simpl. rewrite Hc, Z.sub_diag. simpl.
  apply Z.leb_le in Hle. by rewrite Hle.
Qed.

Lemma Zpos_iter_xO m d : Zpos (Pos.iter xO m d) = (Zpos m * 2 ^ Zpos d)%Z.
Proof.
  change (Pos.iter xO m d) with (shift_pos d m).
  rewrite shift_pos_correct. change (Zpower_pos 2 d) with (2 ^ Zpos d). ring.
Qed.
End ExactRounding.

Section Binary64Exact.
Local Open Scope Z_scope.

Lemma canon64_mantissa n :
  0 < n -> Zdigits2 n <= 53 ->
  Zpos (Z.to_pos (n * 2 ^ (53 - Zdigits2 n))) = n * 2 ^ (53 - Zdigits2 n) /\
  Zdigits2 (n * 2 ^ (53 - Zdigits2 n)) = 53.
Proof.
  intros Hn Hd. pose proof (Z.pow_pos_nonneg 2 (53 - Zdigits2 n)).
  split; [apply Z2Pos.id; nia|]. rewrite Zdigits2_mul_pow2 by lia. lia.
Qed.

Lemma canonical53 m e :
  Zdigits2 (Zpos m) = 53 -> -1074 <= e -> canonical_mantissa 53 1024 m e = true.
Proof.
  intros Hd He. unfold canonical_mantissa, fexp, SpecFloat.emin. simpl in Hd.
  rewrite Hd. apply Z.eqb_eq. lia.
Qed.

Lemma pow2_split a b c d :
  a + b = c + d -> 0 <= a -> 0 <= b -> 0 <= c -> 0 <= d ->
  2 ^ a * 2 ^ b = 2 ^ c * 2 ^ d.
Proof. intros H ? ? ? ?. by rewrite <- !Z.pow_add_r, H by lia. Qed.

Lemma div_eucl_exact a b : 0 < b -> Z.div_eucl (a * b) b = (a, 0).
Proof.
  intros Hb. pose proof (Z.div_mul a b) as Hq. pose proof (Z.mod_mul a b) as Hr.
  unfold Z.div, Z.modulo in Hq, Hr.
  destruct (Z.div_eucl (a * b) b) as [q r]. f_equal; [apply Hq|apply Hr]; lia.
Qed.

Lemma new_location_0 n : new_location n 0 = loc_Exact.
Proof. unfold new_location. by destruct (Z.even n). Qed.

(** A binary32 mantissa and exponent as a Number. *)
Lemma of_finite_canon64 s m e :
  Zdigits2 (Zpos m) <= 53 -> -1074 <= e - (53 - Zdigits2 (Zpos m)) <= 971 ->
  F64.of_finite s m e = canon64 s (Zpos m) e.
Proof.
  intros Hd He. destruct (canon64_mantissa (Zpos m)) as [Hm Hdm]; [lia|done|].
  unfold F64.of_finite, binary_round, canon64.
  assert (fexp F64.prec F64.emax (Zpos (digits2_pos m) + e) = e - (53 - Zdigits2 (Zpos m))) as ->.
  { unfold fexp, SpecFloat.emin, F64.prec, F64.emax. simpl Zdigits2 in *. lia. }
  unfold shl_align.
  destruct (e - (53 - Zdigits2 (Zpos m)) - e) as [|k|k] eqn:Ek.
  - assert (Zdigits2 (Zpos m) = 53) as E53 by lia.
    rewrite E53, Z.sub_diag, Z.mul_1_r, Z.sub_0_r in *. simpl Z.to_pos.
    rewrite (binary_round_aux_exact _ _ s (Zpos m) m 0 e); try lia.
    + by rewrite Z.add_0_r.
    + rewrite Z.add_0_r. by apply canonical53; [|lia].
    + unfold F64.prec, F64.emax. lia.
  - lia.
  - assert (Zpos k = 53 - Zdigits2 (Zpos m)) as Hk by lia.
    rewrite (binary_round_aux_exact _ _ s _ (Pos.iter xO m k) 0); try lia.
    + rewrite Z.add_0_r. f_equal. apply Pos2Z.inj. by rewrite Zpos_iter_xO, Hm, Hk.
    + rewrite Z.add_0_r. apply canonical53; [|lia]. by rewrite Zpos_iter_xO, Hk.
    + unfold F64.prec, F64.emax. lia.
Qed.

(** An exact product. *)
Lemma mul_canon64 s1 s2 n1 n2 e1 e2 :
  0 < n1 -> 0 < n2 -> Zdigits2 n1 <= 53 -> Zdigits2 n2 <= 53 ->
  Zdigits2 (n1 * n2) <= 53 ->
  -1074 <= e1 + e2 - (53 - Zdigits2 (n1 * n2)) <= 971 ->
  F64.mul (canon64 s1 n1 e1) (canon64 s2 n2 e2) = canon64 (xorb s1 s2) (n1 * n2) (e1 + e2).
Proof.
  intros H1 H2 Hd1 Hd2 Hd He.
  destruct (canon64_mantissa n1) as [Hm1 _]; [done..|].
  destruct (canon64_mantissa n2) as [Hm2 _]; [done..|].
  destruct (canon64_mantissa (n1 * n2)) as [Hm Hdm]; [nia|done|].
  pose proof (Zdigits2_mul n1 n2 H1 H2) as Hdd.
  unfold F64.mul, SFmul, canon64.
  set (k := 53 + Zdigits2 (n1 * n2) - Zdigits2 n1 - Zdigits2 n2).
  rewrite (binary_round_aux_exact _ _ _ _ (Z.to_pos (n1 * n2 * 2 ^ (53 - Zdigits2 (n1 * n2)))) k).
  - f_equal. subst k. lia.
  - rewrite Pos2Z.inj_mul, Hm1, Hm2, Hm.
    replace (n1 * 2 ^ (53 - Zdigits2 n1) * (n2 * 2 ^ (53 - Zdigits2 n2)))
      with (n1 * n2 * (2 ^ (53 - Zdigits2 n1) * 2 ^ (53 - Zdigits2 n2))) by ring.
    rewrite (pow2_split (53 - Zdigits2 n1) (53 - Zdigits2 n2)
               (53 - Zdigits2 (n1 * n2)) k) by (subst k; lia).
    ring.
  - subst k. lia.
  - apply canonical53; [by rewrite Hm|subst k; lia].
  - unfold F64.prec, F64.emax. subst k. lia.
Qed.

(** An exact quotient. *)
Lemma div_canon64 s1 s2 q n2 e1 e2 :
  0 < q -> 0 < n2 -> Zdigits2 (q * n2) <= 53 -> Zdigits2 n2 <= 53 ->
  -1074 <= e1 - e2 + Zdigits2 (q * n2) - Zdigits2 n2 - 53 ->
  -1074 <= e1 - e2 - (53 - Zdigits2 q) <= 971 ->
  F64.div (canon64 s1 (q * n2) e1) (canon64 s2 n2 e2) = canon64 (xorb s1 s2) q (e1 - e2).
Proof.
  intros Hq H2 Hdn Hd2 Hlo He.
  pose proof (Zdigits2_mul q n2 Hq H2) as Hdd.
  destruct (Zdigits2_bounds q Hq) as [Hdq0 _].
  destruct (Zdigits2_bounds n2 H2) as [Hd20 _].
  assert (Zdigits2 q <= 53) as Hdq by lia.
  destruct (canon64_mantissa (q * n2)) as [Hm1 Hdm1]; [nia|done|].
  destruct (canon64_mantissa n2) as [Hm2 Hdm2]; [done..|].
  destruct (canon64_mantissa q) as [Hm Hdm]; [done..|].
  unfold F64.div, SFdiv, canon64, SFdiv_core_binary.
  rewrite Hm1, Hm2, Hdm1, Hdm2.
  set (E1 := e1 - (53 - Zdigits2 (q * n2))). set (E2 := e2 - (53 - Zdigits2 n2)).
  assert (Z.min (fexp F64.prec F64.emax (53 + E1 - (53 + E2))) (E1 - E2) = E1 - E2 - 53) as ->.
  { unfold fexp, SpecFloat.emin, F64.prec, F64.emax. subst E1 E2. lia. }
  replace (E1 - E2 - (E1 - E2 - 53)) with 53 by lia.
  rewrite Z.shiftl_mul_pow2 by lia.
  set (j := 53 - Zdigits2 (q * n2) + Zdigits2 n2).
  replace (q * n2 * 2 ^ (53 - Zdigits2 (q * n2)) * 2 ^ 53)
    with ((q * 2 ^ j) * (n2 * 2 ^ (53 - Zdigits2 n2))).
  2:{ replace (q * 2 ^ j * (n2 * 2 ^ (53 - Zdigits2 n2)))
        with (q * n2 * (2 ^ j * 2 ^ (53 - Zdigits2 n2))) by ring.
      rewrite (pow2_split j (53 - Zdigits2 n2) (53 - Zdigits2 (q * n2)) 53)
        by (subst j; lia).
      ring. }
  pose proof (Z.pow_pos_nonneg 2 (53 - Zdigits2 n2)).
  rewrite div_eucl_exact by nia. rewrite new_location_0.
  set (k := Zdigits2 n2 + Zdigits2 q - Zdigits2 (q * n2)).
  rewrite (binary_round_aux_exact _ _ _ _ (Z.to_pos (q * 2 ^ (53 - Zdigits2 q))) k).
  - f_equal. subst E1 E2 k. lia.
  - rewrite Hm. rewrite <- Z.mul_assoc.
    rewrite (pow2_split (53 - Zdigits2 q) k j 0) by (subst j k; lia).
    ring.
  - subst k. lia.
  - apply canonical53; [by rewrite Hm|subst E1 E2 k; lia].
  - unfold F64.prec, F64.emax. subst E1 E2 k. lia.
Qed.

(** Rounding to binary32 a Number that a binary32 value denotes. *)
Lemma round32_canon64 s m e :
  bounded 24 128 m e = true ->
  F32.round (canon64 s (Zpos m) e) = S754_finite s m e.
Proof.
  unfold bounded, canonical_mantissa, fexp, SpecFloat.emin.
  intros Hb. apply andb_true_iff in Hb as [Hc Hle].
  apply Z.eqb_eq in Hc. apply Z.leb_le in Hle.
  assert (Zdigits2 (Zpos m) <= 24) as Hd by (simpl Zdigits2; lia).
  destruct (canon64_mantissa (Zpos m)) as [Hm Hdm]; [lia|lia|].
  unfold F32.round, canon64, binary_round.
  set (m1 := Z.to_pos (Zpos m * 2 ^ (53 - Zdigits2 (Zpos m)))).
  set (e1 := e - (53 - Zdigits2 (Zpos m))).
  assert (Zpos (digits2_pos m1) = 53) as Hd1.
  { change (Zpos (digits2_pos m1)) with (Zdigits2 (Zpos m1)). subst m1. by rewrite Hm. }
  rewrite Hd1.
  assert (0 < fexp F32.prec F32.emax (53 + e1) - e1) as Hpos.
  { unfold fexp, SpecFloat.emin, F32.prec, F32.emax. lia. }
  unfold shl_align.
  destruct (fexp F32.prec F32.emax (53 + e1) - e1) as [|k|k]; try lia.
  rewrite (binary_round_aux_exact _ _ s _ m (53 - Zdigits2 (Zpos m))).
  - f_equal. subst e1. lia.
  - subst m1. by rewrite Hm.
  - lia.
  - unfold canonical_mantissa, fexp, SpecFloat.emin, F32.prec, F32.emax.
    apply Z.eqb_eq. subst e1. simpl Zdigits2 in *. lia.
  - unfold F32.prec, F32.emax. subst e1. lia.
Qed.
End Binary64Exact.

Section UnitScale.
Local Open Scope Z_scope.

Lemma of_Z_million : F64.of_Z 1000000 = canon64 false 1000000 0.
Proof. vm_compute; reflexivity. Qed.

Lemma of_Z_thousand : F64.of_Z 1000 = canon64 false 1000 0.
Proof. vm_compute; reflexivity. Qed.

Lemma Zdigits2_le n d : 0 < n -> n < 2 ^ d -> Zdigits2 n <= d.
Proof.
  intros Hn H. destruct (Zdigits2_bounds n Hn) as [Hd Hb].
  destruct (Z.lt_ge_cases d (Zdigits2 n)) as [L|]; [|lia].
  pose proof (Z.pow_le_mono_r 2 d (Zdigits2 n - 1)). lia.
Qed.

(** With TimecodeScale 1,000,000 the three operations are exact: a binary32
    value times 10^6 fits in 44 bits, and both quotients are integers. *)
Lemma scaled_duration_million s m e :
  0 < m < 2 ^ 24 -> -149 <= e <= 104 ->
  scaled_duration (canon64 s m e) (F64.of_Z 1000000) = canon64 s m e.
Proof.
  intros Hm He. unfold scaled_duration. rewrite of_Z_million, of_Z_thousand.
  destruct (Zdigits2_bounds m) as [Hd0 _]; [lia|].
  pose proof (Zdigits2_le m 24) as Hd.
  pose proof (Zdigits2_le (m * 1000) 34) as Hd3.
  pose proof (Zdigits2_le (m * 1000 * 1000) 44) as Hd6.
  pose proof (Zdigits2_mul m 1000) as Hm3.
  pose proof (Zdigits2_mul (m * 1000) 1000) as Hm6.
  change (Zdigits2 1000) with 10 in *.
  assert (Zdigits2 1000000 = 20) as D6 by reflexivity.
  pose proof (Zdigits2_mul m 1000000) as Hmm.
  rewrite D6 in Hmm.
  rewrite mul_canon64; try lia.
  replace (m * 1000000) with (m * 1000 * 1000) by lia.
  rewrite xorb_false_r, Z.add_0_r.
  rewrite div_canon64; try (change (Zdigits2 1000) with 10); try lia.
  rewrite xorb_false_r, Z.sub_0_r.
  rewrite div_canon64; try (change (Zdigits2 1000) with 10); try lia.
  by rewrite xorb_false_r, Z.sub_0_r.
Qed.
End UnitScale.

Section Binary32Bits.
Local Open Scope Z_scope.

(** Sign, exponent field and fraction field of a 32-bit pattern. *)
Lemma of_bits_fields w :
  0 <= w < 2 ^ 32 ->
  exists sb ex fr,
    (sb = 0 \/ sb = 1) /\ 0 <= ex < 256 /\ 0 <= fr < 2 ^ 23 /\
    w = sb * 2 ^ 31 + ex * 2 ^ 23 + fr /\
    Z.testbit w 31 = (sb =? 1) /\
    Z.land (Z.shiftr w 23) 255 = ex /\ Z.land w (2 ^ 23 - 1) = fr /\
    (w / 2 ^ 23) mod 256 = ex /\ w mod 2 ^ 23 = fr.
Proof.
  intros Hw. exists (w / 2 ^ 31), ((w / 2 ^ 23) mod 256), (w mod 2 ^ 23).
  change (2 ^ 32) with 4294967296 in *. change (2 ^ 31) with 2147483648.
  change (2 ^ 23) with 8388608.
  assert (Z.testbit w 31 = (w / 2147483648 =? 1)) as Ht.
  { pose proof (Z.testbit_spec' w 31) as H. change (2 ^ 31) with 2147483648 in H.
    destruct (Z.testbit w 31); simpl in H; apply eq_sym.
    - apply Z.eqb_eq. Z.div_mod_to_equations. lia.
    - apply Z.eqb_neq. Z.div_mod_to_equations. lia. }
  assert (Z.land (Z.shiftr w 23) 255 = (w / 8388608) mod 256) as He.
  { change 255 with (Z.ones 8). rewrite Z.land_ones, Z.shiftr_div_pow2 by lia. done. }
  assert (Z.land w (8388608 - 1) = w mod 8388608) as Hf.
  { change (8388608 - 1) with (Z.ones 23). by rewrite Z.land_ones by lia. }
  repeat split; try done; Z.div_mod_to_equations; lia.
Qed.

Lemma number_of_f32_of_bits_cases nan w :
  0 <= w < 2 ^ 32 ->
  match F32.of_bits w with
  | S754_finite s m e => bounded 24 128 m e = true /\ Zpos m < 2 ^ 24 /\ -149 <= e <= 104
  | _ => True
  end /\
  F32.to_bits nan (F32.of_bits w) = rewritten_bits nan w.
Proof.
  intros Hw.
  destruct (of_bits_fields w Hw) as (sb & ex & fr & Hsb & Hex & Hfr & Hwe & Ht & He & Hf & He' & Hf').
  unfold rewritten_bits, is_nan_bits, F32.of_bits, F32.to_bits, float_bits, F32.emin,
    SpecFloat.emin, F32.prec, F32.emax.
  rewrite Ht, He, Hf, He', Hf'.
  change (2 ^ 23) with 8388608 in *. change (2 ^ 31) with 2147483648 in *.
  change (2 ^ 24) with 16777216. change (2 ^ (23 + 8)) with 2147483648.
  change (2 ^ (8 - 1)) with 128. change (2 ^ 8) with 256. change (2 ^ (23 - 1)) with 4194304.
  destruct (ex =? 0) eqn:E0; [apply Z.eqb_eq in E0|apply Z.eqb_neq in E0].
  - rewrite (proj2 (Z.eqb_neq ex 255)) by lia. simpl andb.
    destruct fr as [|m|m] eqn:Efr; try lia.
    + split; [done|]. destruct Hsb as [-> | ->]; simpl; lia.
    + split.
      * unfold bounded, canonical_mantissa, fexp, SpecFloat.emin.
        pose proof (digits2_pos_bounds m) as Hd.
        assert (Zpos (digits2_pos m) <= 23) as Hd23.
        { change (Zpos (digits2_pos m)) with (Zdigits2 (Zpos m)).
          apply Zdigits2_le; [lia|]. change (2 ^ 23) with 8388608. lia. }
        split; [|lia]. apply andb_true_iff. split; [apply Z.eqb_eq|apply Z.leb_le]; lia.
      * rewrite (proj2 (Z.leb_gt 8388608 (Zpos m))) by lia.
        destruct Hsb as [-> | ->]; simpl; lia.
  - destruct (ex =? 255) eqn:E255; [apply Z.eqb_eq in E255|apply Z.eqb_neq in E255].
    + destruct (fr =? 0) eqn:Ef0; [apply Z.eqb_eq in Ef0|apply Z.eqb_neq in Ef0]; simpl.
      * split; [done|]. destruct Hsb as [-> | ->]; simpl; lia.
      * split; [done|]. reflexivity.
    + simpl andb. destruct (fr + 8388608) as [|m|m] eqn:Em; try lia.
      split.
      * assert (Zdigits2 (Zpos m) = 24) as Hd24.
        { apply Zdigits2_unique; [|lia]. change (2 ^ (24 - 1)) with 8388608.
          change (2 ^ 24) with 16777216. lia. }
        simpl Zdigits2 in Hd24.
        unfold bounded, canonical_mantissa, fexp, SpecFloat.emin. rewrite Hd24.
        split; [|lia]. apply andb_true_iff. split; [apply Z.eqb_eq|apply Z.leb_le]; lia.
      * rewrite (proj2 (Z.leb_le 8388608 (Zpos m))) by lia.
        destruct Hsb as [-> | ->]; simpl; lia.
Qed.
End Binary32Bits.

Section UnitScaleBytes.
Local Open Scope Z_scope.

(** Whatever the encoding, the pattern of a NaN has the sign of the
    encoding, exponent bits all ones and a fraction that is not zero. *)
Lemma nan_bits_fields nan :
  exists fr, 1 <= fr < 2 ^ 23 /\
    F32.nan_bits nan = Z.b2z (nan_sign nan) * 2 ^ 31 + 255 * 2 ^ 23 + fr.
Proof.
  exists (nan_fraction 23 nan). split.
  - unfold nan_fraction. change (2 ^ 23) with 8388608.
    pose proof (Z.mod_pos_bound (Zpos (nan_payload nan) - 1) (8388608 - 1)). lia.
  - unfold F32.nan_bits, F32.to_bits, float_bits.
    change (2 ^ (23 + 8)) with (2 ^ 31). change (2 ^ 8 - 1) with 255.
    destruct (nan_sign nan); simpl Z.b2z; lia.
Qed.

Lemma nan_bits_range nan : 0 <= F32.nan_bits nan < 2 ^ 32.
Proof.
  destruct (nan_bits_fields nan) as (fr & Hfr & ->).
  change (2 ^ 23) with 8388608 in *. change (2 ^ 31) with 2147483648.
  change (2 ^ 32) with 4294967296. destruct (nan_sign nan); simpl Z.b2z; lia.
Qed.

Lemma nan_bits_is_nan nan :
  is_nan_bits (F32.nan_bits nan) = true /\ F32.of_bits (F32.nan_bits nan) = S754_nan.
Proof.
  destruct (nan_bits_fields nan) as (fr & Hfr & Hw).
  destruct (of_bits_fields _ (nan_bits_range nan))
    as (sb' & ex' & fr' & Hsb' & Hex' & Hfr' & Hw' & Ht & He & Hf & He' & Hf').
  rewrite Hw in Hw'.
  change (2 ^ 23) with 8388608 in *. change (2 ^ 31) with 2147483648 in *.
  assert (ex' = 255 /\ fr' = fr) as [-> ->]
    by (destruct (nan_sign nan); simpl Z.b2z in Hw'; lia).
  unfold is_nan_bits, F32.of_bits. change (2 ^ 23) with 8388608. rewrite He', Hf', He, Hf.
  rewrite (proj2 (Z.eqb_neq fr 0)) by lia. done.
Qed.

Lemma rewritten_bits_range nan w : 0 <= w < 2 ^ 32 -> 0 <= rewritten_bits nan w < 2 ^ 32.
Proof.
  intros H. unfold rewritten_bits. destruct (is_nan_bits w); [|done].
  apply nan_bits_range.
Qed.

(** Writing again what was written changes nothing, if a NaN is written
    with the same encoding both times. *)
Lemma rewritten_bits_again nan nan' w :
  (is_nan_bits w = true -> F32.nan_bits nan' = F32.nan_bits nan) ->
  rewritten_bits nan' (rewritten_bits nan w) = rewritten_bits nan w.
Proof.
  intros H. unfold rewritten_bits. destruct (is_nan_bits w) eqn:E.
  - destruct (nan_bits_is_nan nan) as [-> _]. by apply H.
  - by rewrite E.
Qed.

(** With TimecodeScale 1,000,000, the four bytes written are those of the
    value that was read. *)
Lemma unit_scale_bytes nan w :
  0 <= w < 2 ^ 32 ->
  float32_bytes nan (scaled_duration (number_of_f32 (F32.of_bits w)) (F64.of_Z 1000000)) =
    bytes_of_u32 (rewritten_bits nan w).
Proof.
  intros Hw. destruct (number_of_f32_of_bits_cases nan w Hw) as [Hb <-].
  unfold float32_bytes. f_equal. f_equal.
  destruct (F32.of_bits w) as [s|s| |s m e].
  - by destruct s.
  - by destruct s.
  - reflexivity.
  - destruct Hb as (Hb & Hm & He).
    assert (Zdigits2 (Zpos m) <= 24) as Hd by (apply Zdigits2_le; lia).
    destruct (Zdigits2_bounds (Zpos m)) as [Hd0 _]; [lia|].
    unfold number_of_f32. rewrite of_finite_canon64 by lia.
    rewrite scaled_duration_million by lia. by apply round32_canon64.
Qed.

Lemma byte_val_of_Z z : byte_val (byte_of_Z z) = z mod 256.
Proof.
  unfold byte_val, byte_of_Z. pose proof (Z.mod_pos_bound z 256) as H.
  destruct (Byte.of_N (Z.to_N (z mod 256))) as [b|] eqn:E.
  - apply Byte.to_of_N in E. rewrite E. lia.
  - apply Byte.of_N_None_iff in E. lia.
Qed.

Lemma u32_of_bytes_of_u32 w :
  0 <= w < 2 ^ 32 ->
  Z.lor (Z.shiftl (byte_val (byte_of_Z (Z.shiftr w 24))) 24)
    (Z.lor (Z.shiftl (byte_val (byte_of_Z (Z.shiftr w 16))) 16)
       (Z.lor (Z.shiftl (byte_val (byte_of_Z (Z.shiftr w 8))) 8)
          (byte_val (byte_of_Z w)))) = w.
Proof.
  intros Hw. rewrite !byte_val_of_Z, !Z.shiftr_div_pow2 by lia.
  change (2 ^ 32) with 4294967296 in Hw.
  change (2 ^ 24) with 16777216. change (2 ^ 16) with 65536. change (2 ^ 8) with 256.
  pose proof (Z.mod_pos_bound w 256). pose proof (Z.mod_pos_bound (w / 256) 256).
  pose proof (Z.mod_pos_bound (w / 65536) 256).
  rewrite (lor_shiftl_add _ (w mod 256) 8) by (change (2 ^ 8) with 256; lia).
  rewrite (lor_shiftl_add _ _ 16) by (change (2 ^ 16) with 65536; change (2 ^ 8) with 256; lia).
  rewrite (lor_shiftl_add _ _ 24)
    by (change (2 ^ 24) with 16777216; change (2 ^ 16) with 65536; change (2 ^ 8) with 256; lia).
  change (2 ^ 24) with 16777216. change (2 ^ 16) with 65536. change (2 ^ 8) with 256.
  Z.div_mod_to_equations. lia.
Qed.

Lemma getUint32_range dv off w : getUint32 dv off = Ok w -> 0 <= w < 2 ^ 32.
Proof.
  intros H. destruct (getUint32_Ok dv off) as (b0 & b1 & b2 & b3 & _ & E);
    [by eapply getUint32_inv|].
  rewrite E in H. apply Ok_inj in H. subst w.
  pose proof (byte_val_range b0). pose proof (byte_val_range b1).
  pose proof (byte_val_range b2). pose proof (byte_val_range b3).
  rewrite (lor_shiftl_add _ (byte_val b3) 8) by lia.
  rewrite (lor_shiftl_add _ _ 16) by lia.
  rewrite (lor_shiftl_add _ _ 24) by lia.
  change (2 ^ 32) with 4294967296. lia.
Qed.
End UnitScaleBytes.

Lemma take_drop_inserts (b k : list byte) p :
  p + length k <= length b -> take (length k) (drop p (list_inserts p k b)) = k.
Proof.
  intros H. apply list_eq. intros i. destruct (decide (i < length k)).
  - rewrite lookup_take_lt, lookup_drop by done.
    rewrite list_lookup_inserts by lia. f_equal. lia.
  - rewrite lookup_take_ge by lia. symmetry. apply lookup_ge_None. lia.
Qed.

Lemma getUint32_inserts (b : list byte) p w :
  (0 <= w < 2 ^ 32)%Z -> p + 4 <= length b ->
  getUint32 (list_inserts p (bytes_of_u32 w) b) p = Ok w.
Proof.
  intros Hw Hp. unfold getUint32.
  change 4 with (length (bytes_of_u32 w)) at 1. rewrite take_drop_inserts by done.
  unfold bytes_of_u32. by rewrite u32_of_bytes_of_u32.
Qed.

Lemma list_inserts_twice (b k : list byte) p :
  list_inserts p k (list_inserts p k b) = list_inserts p k b.
Proof.
  apply list_eq. intros i.
  destruct (decide (i < p)); [by rewrite !list_lookup_inserts_lt|].
  destruct (decide (p + length k <= i)); [by rewrite !list_lookup_inserts_ge|].
  destruct (decide (i < length b)).
  - by rewrite !list_lookup_inserts by (rewrite ?length_inserts; lia).
  - by rewrite !(lookup_ge_None_2 _ i) by (rewrite ?length_inserts; lia).
Qed.

(** ** The claims about the reader, the dictionary and the loop *)

(** C9: the scan loop of [decode] terminates on every buffer. An iteration
    that completes moves the cursor by 5 plus the declared size, so by at
    least 5; the loop exits as soon as the cursor has reached the buffer
    length; hence [decode] returns or throws, and any fuel of at least a
    fifth of the buffer length gives that same outcome. *)
Theorem decode_loop_terminates (buffer : list byte) :
  (forall off e next, scan_body buffer off = Ok (e, next) ->
     next = off + 5 + dataSize e /\ off + 5 <= next) /\
  (forall fuel off acc, length buffer <= off -> scan fuel buffer off acc = Ok acc) /\
  exists r, r <> Diverge /\ decode buffer = r /\
    forall fuel, length buffer <= 5 * fuel -> decode_fuel fuel buffer = r.
Proof.
  split; [|split].
  - intros off e next H. apply scan_body_inv in H as (_ & ? & _ & ? & _). lia.
  - intros. by apply scan_exit.
  - exists (decode buffer). split; [apply decode_not_Diverge|]. split; [done|].
    intros fuel Hf. unfold decode, decode_fuel. f_equal.
    destruct (decide (fuel <= length buffer)).
    + symmetry. apply scan_fuel_mono; [done|]. apply scan_no_Diverge. lia.
    + apply scan_fuel_mono; [lia|]. apply scan_no_Diverge. lia.
Qed.

Lemma decode_loop_terminates_witness :
  scan 1 ebml_start 0 [] <> Diverge /\ decode_fuel 6 sample_1ms = decode sample_1ms.
Proof.
  destruct (decode_loop_terminates sample_1ms) as (_ & _ & r & _ & Hr & Hfuel).
  destruct (decode_loop_terminates ebml_start) as (_ & _ & r' & Hn' & Hr' & Hfuel').
  split.
  - intros Hd. apply Hn'. rewrite <- (Hfuel' 1) by (vm_compute; lia).
    unfold decode_fuel. by rewrite Hd.
  - rewrite Hr. apply Hfuel. vm_compute. lia.
Defined.

(** C8: every element of the array [decode] returns has a declared payload
    size of at most 127 and a payload offset exactly 5 bytes after the
    cursor position at which it was read: the first at 0 + 5, each next one
    5 bytes after the end of the previous declared payload. The same bounds
    hold for the elements hung under Segment and Info. *)
Theorem decode_elements_layout (buffer : list byte) (elms : list element) :
  decode buffer = Ok elms ->
  laid_out 0 elms /\
  Forall (fun e => placed e /\
            Forall (fun c => placed c /\ Forall placed (children c)) (children e)) elms.
Proof.
  rewrite decode_Ok. intros (els & Hs & ->).
  destruct (scan_laid_out _ _ _ _ Hs) as [Hl HF].
  split.
  - destruct (build_tree_shape els) as [HL Hsh].
    apply (laid_out_ext _ els); [done| |done].
    intros i e1 H1. destruct (Hsh _ _ H1) as (e & ? & _ & _ & ? & ? & _). by exists e.
  - apply build_tree_children; [by intros [] cs|].
    rewrite Forall_lookup in HF |- *. intros i e He.
    destruct (HF _ _ He) as [-> _]. split; [|done].
    destruct (laid_out_lookup _ _ _ _ Hl He). unfold placed. lia.
Qed.

Lemma decode_elements_layout_witness :
  exists elms, decode sample_1ms = Ok elms /\ laid_out 0 elms /\
    Forall (fun e => placed e /\
              Forall (fun c => placed c /\ Forall placed (children c)) (children e)) elms.
Proof.
  eexists. split; [vm_compute; reflexivity|].
  apply (decode_elements_layout sample_1ms). vm_compute; reflexivity.
Defined.

(** C7: the dictionary lookup is total: every identifier gets one of the five
    name and type pairs; an identifier other than the four known ones gets
    Unknown and b, and the loop then pushes an element without a value and
    moves on to the next element instead of failing. *)
Theorem unknown_elements_are_skipped (i : Z) :
  ((_getTagName i = "Segment" /\ _getTagType i = "m") \/
   (_getTagName i = "Info" /\ _getTagType i = "m") \/
   (_getTagName i = "TimecodeScale" /\ _getTagType i = "u") \/
   (_getTagName i = "Duration" /\ _getTagType i = "f") \/
   (_getTagName i = "Unknown" /\ _getTagType i = "b")) /\
  (~ known_id i ->
   _getTagName i = "Unknown" /\ _getTagType i = "b" /\
   forall dv off sz fuel acc,
     _readEbmlHeader dv off = Ok (Header i sz 5) ->
     scan (S fuel) dv off acc =
       scan fuel dv (off + 5 + sz) (acc ++ [Element "Unknown" "b" (off + 5) sz [] None])).
Proof.
  split; [apply tag_cases|]. intros N.
  split; [by apply getTagName_unknown|]. split; [by apply getTagType_unknown|].
  intros dv off sz fuel acc H. rewrite scan_unfold.
  destruct (readEbmlHeader_inv _ _ _ H) as (_ & _ & ?).
  rewrite decide_True by lia. unfold scan_body. rewrite H. simpl.
  rewrite getTagType_unknown, getTagName_unknown by done.
  unfold read_value. rewrite !decide_False by done. done.
Qed.

Lemma unknown_elements_are_skipped_witness :
  _getTagName 0x1A45DFA3 = "Unknown" /\ _getTagType 0x1A45DFA3 = "b" /\
  scan 1 ebml_start 0 [] = Ok [Element "Unknown" "b" 5 31 [] None].
Proof.
  destruct (unknown_elements_are_skipped 0x1A45DFA3) as [_ H].
  destruct H as (Hn & Ht & Hs).
  { unfold known_id. lia. }
  split; [exact Hn|]. split; [exact Ht|].
  rewrite (Hs ebml_start 0 31 0 []); reflexivity.
Defined.

(** C5, as stated, fails: the reader does not look at the leading zero bits.
    On a start whose leading byte is 0x00 it returns a header, where the
    claim announces a failure; on a Duration element written with its
    two-byte identifier it still takes four bytes as identifier and the fifth
    as size. *)
Lemma readEbmlHeader_accepts_zero_lead :
  let dv := [x00; x00; x44; x89; x84; x45; x9c; x40; x00] in
  let dv' := [x44; x89; x84; x45; x9c; x40; x00] in
  (dv !! 0 = Some x00 /\ spec_vint_width x00 = None /\
   _readEbmlHeader dv 0 = Ok (Header 0x4489 4 5)) /\
  (dv' !! 0 = Some x44 /\ spec_vint_width x44 = Some 2 /\
   _readEbmlHeader dv' 0 = Ok (Header 0x44898445 28 5)).
Proof. repeat split; reflexivity. Qed.

(** C5, amended: with at least 5 bytes left at the offset, the reader returns
    the four bytes at the offset as a big-endian 32-bit identifier, the low
    seven bits of the fifth byte as size, and 5 as header length, whatever
    the leading byte; with fewer than 5 bytes left it throws a RangeError. *)
Theorem readEbmlHeader_fixed_width (dataView : list byte) (offset : nat) :
  (offset + 5 <= length dataView ->
   exists b0 b1 b2 b3 b4,
     take 5 (drop offset dataView) = [b0; b1; b2; b3; b4] /\
     _readEbmlHeader dataView offset =
       Ok (Header
             (byte_val b0 * 2 ^ 24 + byte_val b1 * 2 ^ 16 + byte_val b2 * 2 ^ 8 + byte_val b3)
             (Z.to_nat (byte_val b4 mod 128)) 5)) /\
  (length dataView < offset + 5 -> _readEbmlHeader dataView offset = Throw RangeError).
Proof.
  split; [|apply readEbmlHeader_short].
  intros H. destruct (readEbmlHeader_long _ _ H) as (b0 & b1 & b2 & b3 & b4 & T & ->).
  exists b0, b1, b2, b3, b4. split; [done|]. do 2 f_equal.
  - pose proof (byte_val_range b1). pose proof (byte_val_range b2).
    pose proof (byte_val_range b3).
    rewrite (lor_shiftl_add (byte_val b2) (byte_val b3) 8) by lia.
    rewrite (lor_shiftl_add (byte_val b1) _ 16) by lia.
    rewrite (lor_shiftl_add (byte_val b0) _ 24) by lia. lia.
  - f_equal. change 0x7F%Z with (Z.ones 7). by rewrite Z.land_ones by lia.
Qed.

Lemma readEbmlHeader_fixed_width_witness :
  _readEbmlHeader ebml_start 0 = Ok (Header 0x1A45DFA3 31 5) /\
  _readEbmlHeader truncated 0 = Throw RangeError.
Proof.
  destruct (readEbmlHeader_fixed_width ebml_start 0) as [Hlong _].
  destruct (readEbmlHeader_fixed_width truncated 0) as [_ Hshort].
  split.
  - destruct Hlong as (b0 & b1 & b2 & b3 & b4 & T & E); [vm_compute; lia|].
    vm_compute in T. injection T as <- <- <- <- <-. rewrite E. reflexivity.
  - apply Hshort. vm_compute. lia.
Defined.

(** ** The claims about [process] *)

(** C4: when the array [decode] returns has no Segment, or its Segment has no
    Info child, or that Info has no Duration child or no TimecodeScale child,
    [process] returns the bytes of its input, as an ordinary result. *)
Theorem process_missing_metadata (nan : nan_encoding) (blob : list byte)
    (elms : list element) :
  decode blob = Ok elms ->
  find_named "Segment" elms = None \/
  (exists i segmentEl, find_named "Segment" elms = Some (i, segmentEl) /\
     (find_named "Info" (children segmentEl) = None \/
      exists j infoEl, find_named "Info" (children segmentEl) = Some (j, infoEl) /\
        (find_named "Duration" (children infoEl) = None \/
         find_named "TimecodeScale" (children infoEl) = None))) ->
  process nan blob = Ok blob.
Proof.
  intros H Hm. unfold process. rewrite H. simpl.
  destruct Hm as [E | (i & seg & E & Hm)]; rewrite E; simpl; [done|].
  destruct Hm as [E' | (j & info & E' & Hm)]; rewrite E'; simpl; [done|].
  destruct Hm as [E'' | E'']; rewrite E''; simpl; [done|].
  by destruct (find_named "Duration" (children info)) as [[? ?]|].
Qed.

Lemma process_missing_metadata_witness : process nan_plain ebml_start = Ok ebml_start.
Proof.
  apply (process_missing_metadata nan_plain ebml_start
           [Element "Unknown" "b" 5 31 [] None]).
  - vm_compute; reflexivity.
  - left. vm_compute; reflexivity.
Defined.






(** C1, as stated, fails: on a Duration that declares 8 payload bytes the
    result is not the input with the payload replaced by the 8-byte encoding
    of the corrected duration. Four bytes are written, the last four payload
    bytes stay as they were. *)
Lemma process_ignores_declared_width :
  exists elms d t bs out,
    decode sample_wide = Ok elms /\
    located "Duration" elms = Some d /\ located "TimecodeScale" elms = Some t /\
    dataSize d = 8 /\
    (forall nan, spec_duration_bytes nan (dataSize d)
       (scaled_duration (to_number (value d)) (to_number (value t))) = Some bs) /\
    length bs = 8 /\
    (forall nan, process nan sample_wide = Ok out) /\
    out <> list_inserts (dataOffset d) bs sample_wide /\
    (forall nan,
       out <> list_inserts (dataOffset d) (float64_bytes nan (F64.of_Z 10000)) sample_wide) /\
    take 4 (drop (dataOffset d + 4) out) = take 4 (drop (dataOffset d + 4) sample_wide).
Proof.
  do 5 eexists.
  split; [vm_compute; reflexivity|].
  split; [vm_compute; reflexivity|].
  split; [vm_compute; reflexivity|].
  split; [reflexivity|].
  split; [intros nan; vm_compute; reflexivity|].
  split; [reflexivity|].
  split; [intros nan; vm_compute; reflexivity|].
  split; [vm_compute; discriminate|].
  split; [intros nan; vm_compute; discriminate|].
  vm_compute; reflexivity.
Qed.

(** The bytes written for a value that rounds to a NaN are the NaN in the
    encoding of the implementation; the bytes written for any other value
    do not depend on that encoding. *)
Lemma float32_bytes_cases nan x :
  (F32.round x = S754_nan /\ float32_bytes nan x = bytes_of_u32 (F32.nan_bits nan)) \/
  (F32.round x <> S754_nan /\ forall nan', float32_bytes nan' x = float32_bytes nan x).
Proof.
  unfold float32_bytes. destruct (F32.round x) as [s|s| |s m e];
    [right|right|left|right]; split; try done.
Qed.

(** C1, amended: when [decode] finds Duration and TimecodeScale under
    Segment and Info, and the Duration declares at least 4 payload bytes that
    lie inside the buffer, [process] computes raw * scale / 1000 / 1000 in
    binary64 arithmetic, where raw is the binary32 value of the first four
    payload bytes of Duration and scale the unsigned 32-bit value of the first
    four payload bytes of TimecodeScale, and overwrites the first four
    payload bytes of Duration with the big-endian binary32 encoding of the
    result, whatever width the element declares. When the result is not a
    NaN these four bytes are determined; when it is a NaN they are a NaN
    encoding that the implementation chooses. *)
Theorem process_rewrites_duration (nan : nan_encoding) (blob : list byte)
    (elms : list element) (d t : element) :
  decode blob = Ok elms ->
  located "Duration" elms = Some d -> located "TimecodeScale" elms = Some t ->
  4 <= dataSize d -> dataOffset d + dataSize d <= length blob ->
  exists raw scale,
    getFloat32 blob (dataOffset d) = Ok raw /\
    getUint32 blob (dataOffset t) = Ok scale /\
    process nan blob =
      Ok (list_inserts (dataOffset d)
            (float32_bytes nan (scaled_duration raw (F64.of_Z scale))) blob) /\
    ((F32.round (scaled_duration raw (F64.of_Z scale)) = S754_nan /\
      float32_bytes nan (scaled_duration raw (F64.of_Z scale)) =
        bytes_of_u32 (F32.nan_bits nan)) \/
     (F32.round (scaled_duration raw (F64.of_Z scale)) <> S754_nan /\
      forall nan', process nan' blob = process nan blob)).
Proof.
  intros Hd Ed Et H4 Hin.
  destruct (located_values _ _ _ _ Hd Ed Et) as (raw & scale & Hr & Vd & Hs & Vt & _).
  exists raw, scale. split; [done|]. split; [done|].
  assert (forall n, process n blob =
            Ok (list_inserts (dataOffset d)
                  (float32_bytes n (scaled_duration raw (F64.of_Z scale))) blob)) as Hp.
  { intros n. pose proof (process_cases n _ _ Hd) as Hc. rewrite Ed, Et in Hc.
    rewrite decide_True in Hc by done. by rewrite Hc, Vd, Vt. }
  split; [apply Hp|].
  destruct (float32_bytes_cases nan (scaled_duration raw (F64.of_Z scale)))
    as [[Hn Hb]|[Hn Hb]]; [by left|right].
  split; [done|]. intros nan'. by rewrite !Hp, Hb.
Qed.

Lemma process_rewrites_duration_witness :
  exists raw scale,
    getFloat32 sample_wide 24 = Ok raw /\
    getUint32 sample_wide 15 = Ok scale /\
    process nan_plain sample_wide =
      Ok (list_inserts 24
            (float32_bytes nan_plain (scaled_duration raw (F64.of_Z scale))) sample_wide) /\
    ((F32.round (scaled_duration raw (F64.of_Z scale)) = S754_nan /\
      float32_bytes nan_plain (scaled_duration raw (F64.of_Z scale)) =
        bytes_of_u32 (F32.nan_bits nan_plain)) \/
     (F32.round (scaled_duration raw (F64.of_Z scale)) <> S754_nan /\
      forall nan', process nan' sample_wide = process nan_plain sample_wide)).
Proof.
  refine (process_rewrites_duration nan_plain sample_wide _
            (Element "Duration" "f" 24 8 [] _)
            (Element "TimecodeScale" "u" 15 4 [] _) _ _ _ _ _).
  - vm_compute; reflexivity.
  - vm_compute; reflexivity.
  - vm_compute; reflexivity.
  - vm_compute; lia.
  - vm_compute; lia.
Defined.

(** The scenario of the specification: TimecodeScale 1,000,000 and a raw
    Duration of 5000.0 give 5000.0, written as 45 9C 40 00. *)
Example process_sample_1ms : forall nan, process nan sample_1ms = Ok sample_1ms.
Proof. intros nan. vm_compute; reflexivity. Qed.

Example scaled_5000 : forall nan,
  float32_bytes nan (scaled_duration (F64.of_Z 5000) (F64.of_Z 1000000)) =
    [x45; x9c; x40; x00].
Proof. intros nan. vm_compute; reflexivity. Qed.

(** ** Running [process] twice *)

(** C6, as stated, fails: with TimecodeScale 2,000,000 the first run turns a
    Duration of 5000.0 (45 9C 40 00) into 10000.0 (46 1C 40 00), and the
    second run reads that and writes 20000.0 (46 9C 40 00). *)
Lemma process_not_idempotent :
  exists once twice,
    (forall nan, process nan sample_2ms = Ok once) /\
    (forall nan, process nan once = Ok twice) /\ twice <> once /\
    take 4 (drop 24 sample_2ms) = [x45; x9c; x40; x00] /\
    take 4 (drop 24 once) = [x46; x1c; x40; x00] /\
    take 4 (drop 24 twice) = [x46; x9c; x40; x00].
Proof.
  do 2 eexists.
  split; [intros nan; vm_compute; reflexivity|].
  split; [intros nan; vm_compute; reflexivity|].
  split; [vm_compute; discriminate|].
  repeat split; vm_compute; reflexivity.
Qed.

(** A pattern that denotes a NaN is read as the NaN. *)
Lemma of_bits_is_nan w :
  (0 <= w < 2 ^ 32)%Z -> is_nan_bits w = true -> number_of_f32 (F32.of_bits w) = S754_nan.
Proof.
  intros Hw Hn.
  destruct (of_bits_fields w Hw) as (sb & ex & fr & _ & _ & _ & _ & _ & He & Hf & He' & Hf').
  unfold is_nan_bits in Hn. rewrite He', Hf' in Hn.
  apply andb_true_iff in Hn as [E F]. apply negb_true_iff in F.
  unfold F32.of_bits. rewrite He, Hf, E, F.
  destruct (ex =? 0)%Z eqn:E0; [|reflexivity].
  apply Z.eqb_eq in E0. apply Z.eqb_eq in E. lia.
Qed.

(** C6, amended: running [process] on its own result gives that result again
    for every buffer in which it finds nothing to patch, and for every buffer
    whose TimecodeScale reads 1,000,000 and whose Duration is not a NaN: the
    rescaling is then exact, so the bytes written stand for the value read.
    When the Duration is a NaN the same holds on one condition, which the
    language does not guarantee: that the implementation writes the NaN
    with the same encoding in the second run as in the first. *)
Theorem process_idempotent_at_unit_scale (nan nan' : nan_encoding) (blob once : list byte) :
  process nan blob = Ok once ->
  (forall elms d t,
     decode blob = Ok elms ->
     located "Duration" elms = Some d -> located "TimecodeScale" elms = Some t ->
     getUint32 blob (dataOffset t) = Ok 1000000%Z /\
     (value d = Some S754_nan -> F32.nan_bits nan' = F32.nan_bits nan)) ->
  process nan' once = Ok once.
Proof.
  intros H Hscale. destruct (decode blob) as [elms| |] eqn:Hd.
  2,3: rewrite process_located, Hd in H; done.
  pose proof (process_cases nan _ _ Hd) as Hc.
  pose proof (process_cases nan' _ _ Hd) as Hc'.
  destruct (located "Duration" elms) as [d|] eqn:Ed.
  2:{ rewrite Hc in H. apply Ok_inj in H. by subst once. }
  destruct (located "TimecodeScale" elms) as [t|] eqn:Et.
  2:{ rewrite Hc in H. apply Ok_inj in H. by subst once. }
  clear Hc'. case_decide as Hb; [|congruence]. destruct Hb as [H4 Hin].
  rewrite Hc in H. apply Ok_inj in H.
  destruct (located_values _ _ _ _ Hd Ed Et) as (raw & scale & Hr & Vd & Hs & Vt & _).
  destruct (Hscale _ _ _ eq_refl Ed Et) as [Hunit Hsame].
  rewrite Hunit in Hs. apply Ok_inj in Hs. subst scale.
  unfold getFloat32 in Hr.
  destruct (getUint32 blob (dataOffset d)) as [w| |] eqn:Ew; simpl in Hr; try done.
  apply Ok_inj in Hr. subst raw.
  pose proof (getUint32_range _ _ _ Ew) as Hw.
  rewrite Vd, Vt in H. simpl to_number in H. rewrite unit_scale_bytes in H by done.
  subst once.
  destruct (process_after_patch nan' blob (bytes_of_u32 (rewritten_bits nan w)) elms d t
              Hd Ed Et H4 Hin eq_refl) as (raw' & Hr' & Hp).
  unfold getFloat32 in Hr'.
  rewrite getUint32_inserts in Hr' by (apply rewritten_bits_range; done) || lia.
  simpl in Hr'. apply Ok_inj in Hr'. subst raw'.
  rewrite Vt in Hp. simpl to_number in Hp.
  rewrite unit_scale_bytes in Hp by (by apply rewritten_bits_range).
  rewrite rewritten_bits_again, list_inserts_twice in Hp; [exact Hp|].
  intros Hn. apply Hsame. rewrite Vd. f_equal. by apply of_bits_is_nan.
Qed.

Lemma process_idempotent_at_unit_scale_witness :
  exists once,
    process nan_carried sample_nan = Ok once /\ once <> sample_nan /\
    take 4 (drop 24 once) = [x7f; xc0; x00; x01] /\
    process nan_carried once = Ok once.
Proof.
  eexists. split; [vm_compute; reflexivity|]. split; [vm_compute; discriminate|].
  split; [vm_compute; reflexivity|].
  apply (process_idempotent_at_unit_scale nan_carried nan_carried sample_nan).
  - vm_compute; reflexivity.
  - intros elms d t Hd Ed Et. vm_compute in Hd. injection Hd as <-.
    vm_compute in Et. injection Et as <-. split; [vm_compute; reflexivity|done].
Defined.

(** ** The claims about [sanitizeFilename] *)

Module FilenameFacts.
Import Filename.

Lemma underscore_plain : forbidden underscore = false /\ whitespace underscore = false.
Proof. split; reflexivity. Qed.

Lemma not_class_not_space c : space_or_underscore c = false ->
  whitespace c = false /\ c <> underscore.
Proof.
  unfold space_or_underscore. intros H. apply orb_false_elim in H as [Hw Hu].
  split; [done|]. intros ->. by rewrite Z.eqb_refl in Hu.
Qed.

Lemma collapse_length s : forall b, length (collapse b s) <= length s.
Proof.
  induction s as [|c s IH]; intros b; simpl; [lia|].
  destruct (space_or_underscore c), b; simpl;
    try (pose proof (IH true)); try (pose proof (IH false)); lia.
Qed.

Lemma collapse_no_whitespace s : forall b,
  Forall (fun c => whitespace c = false) (collapse b s).
Proof.
  induction s as [|c s IH]; intros b; simpl; [constructor|].
  destruct (space_or_underscore c) eqn:E.
  - destruct b; [apply IH|]. constructor; [reflexivity|apply IH].
  - constructor; [by apply not_class_not_space|apply IH].
Qed.

Lemma collapse_keeps_allowed s : forall b,
  Forall (fun c => forbidden c = false) s ->
  Forall (fun c => forbidden c = false) (collapse b s).
Proof.
  induction s as [|c s IH]; intros b H; simpl; [constructor|].
  inversion H as [|? ? Hc Hs]; subst.
  destruct (space_or_underscore c).
  - destruct b; [by apply IH|]. constructor; [reflexivity|by apply IH].
  - constructor; [done|by apply IH].
Qed.

(** Inside a run nothing is emitted until a code unit outside the class. *)
Lemma collapse_in_run_head s :
  match collapse true s with
  | c :: _ => c <> underscore
  | [] => True
  end.
Proof.
  induction s as [|c s IH]; simpl; [done|].
  destruct (space_or_underscore c) eqn:E; [done|].
  by apply not_class_not_space.
Qed.

Lemma collapse_single_underscores s : forall b, single_underscores (collapse b s).
Proof.
  induction s as [|c s IH]; intros b; simpl; [done|].
  destruct (space_or_underscore c) eqn:E.
  - destruct b; [apply IH|].
    pose proof (collapse_in_run_head s) as Hh. pose proof (IH true) as Ht.
    simpl. destruct (collapse true s) as [|d r]; [done|]. split; [|done].
    intros [_ ->]. done.
  - pose proof (IH false) as Hf. apply not_class_not_space in E as [_ Hc].
    simpl. destruct (collapse false s) as [|d r]; [done|]. split; [|done].
    intros [-> _]. done.
Qed.

Lemma trim_start_allowed (P : Z -> Prop) s : Forall P s -> Forall P (trim_start s).
Proof.
  induction 1 as [|c s Hc Hs IH]; simpl; [constructor|].
  destruct (whitespace c); [done|by constructor].
Qed.

Lemma trim_allowed (P : Z -> Prop) s : Forall P s -> Forall P (trim s).
Proof.
  intros H. unfold trim. apply Forall_rev, trim_start_allowed, Forall_rev.
  by apply trim_start_allowed.
Qed.

Lemma remove_forbidden_allowed s :
  Forall (fun c => forbidden c = false) (remove_forbidden s).
Proof.
  unfold remove_forbidden. apply List.Forall_forall. intros c Hc.
  apply List.filter_In in Hc as [_ Hc]. by apply negb_true_iff.
Qed.

Lemma substring0_length s m : (0 <= m)%Z -> (Z.of_nat (length (substring0 s m)) <= m)%Z.
Proof. intros H. unfold substring0. rewrite length_take. lia. Qed.

Lemma fallback_facts :
  fallback <> [] /\ length fallback = 13 /\
  Forall (fun c => forbidden c = false) fallback /\
  Forall (fun c => whitespace c = false) fallback /\
  single_underscores fallback.
Proof.
  split; [done|]. split; [done|].
  split; [|split]; [repeat constructor..|].
  vm_compute. repeat split; intros [? ?]; discriminate.
Qed.

(** C10, as stated, fails: with a [maxLength] below 13 and a title that
    sanitizes to nothing, the fallback returned is longer than
    [maxLength]. *)
Lemma sanitizeFilename_fallback_exceeds_maxLength :
  sanitizeFilename (of_string "???") 5 = of_string "video_capture" /\
  ~ (Z.of_nat (length (sanitizeFilename (of_string "???") 5)) <= 5)%Z.
Proof. split; [reflexivity|]. vm_compute. intros H. by apply H. Qed.

Lemma sanitizeFilename_facts title m :
  let r := sanitizeFilename title m in
  r <> [] /\
  Forall (fun c => forbidden c = false) r /\
  Forall (fun c => whitespace c = false) r /\
  single_underscores r /\
  (r = fallback \/ (Z.of_nat (length r) <= m)%Z).
Proof.
  destruct fallback_facts as (Fne & Flen & Ff & Fw & Fs).
  unfold sanitizeFilename.
  pose proof (collapse_length (substring0 (trim (remove_forbidden title)) m) false) as L.
  assert (Forall (fun c => forbidden c = false)
            (collapse false (substring0 (trim (remove_forbidden title)) m))) as Hf.
  { apply collapse_keeps_allowed. unfold substring0. apply Forall_take.
    apply trim_allowed, remove_forbidden_allowed. }
  pose proof (collapse_no_whitespace
                (substring0 (trim (remove_forbidden title)) m) false) as Hw.
  pose proof (collapse_single_underscores
                (substring0 (trim (remove_forbidden title)) m) false) as Hs.
  unfold substring0 in *. rewrite length_take in L.
  destruct (collapse false _) as [|c s]; cbv zeta.
  - split; [done|]. split; [done|]. split; [done|]. split; [done|]. by left.
  - split; [done|]. split; [done|]. split; [done|]. split; [done|].
    right. cbn [length] in *. lia.
Qed.

(** C10, amended: for every title and every [maxLength], the result is
    non-empty, holds no forbidden character, no control character
    U+0000-U+001F and no whitespace, and never two underscores in a row;
    it is the fallback video_capture when sanitizing leaves nothing and
    the sanitized text otherwise; its length is at most [maxLength] unless
    it is that 13-unit fallback, so at most the larger of [maxLength] and
    13, and at most 50 with the default [maxLength]. *)
Theorem sanitizeFilename_safe (title : jsstring) (maxLength : Z) :
  let sanitized :=
    collapse false (substring0 (trim (remove_forbidden title)) maxLength) in
  let r := sanitizeFilename title maxLength in
  r <> [] /\
  Forall (fun c => forbidden c = false) r /\
  Forall (fun c => whitespace c = false) r /\
  single_underscores r /\
  (sanitized = [] -> r = fallback) /\
  (sanitized <> [] -> r = sanitized) /\
  (r = fallback \/ (Z.of_nat (length r) <= maxLength)%Z) /\
  (Z.of_nat (length r) <= Z.max maxLength 13)%Z /\
  (Z.of_nat (length (sanitizeFilename title default_maxLength)) <= 50)%Z.
Proof.
  intros sanitized r.
  destruct fallback_facts as (Fne & Flen & Ff & Fw & Fs).
  destruct (sanitizeFilename_facts title maxLength) as (H1 & H2 & H3 & H4 & H5).
  destruct (sanitizeFilename_facts title default_maxLength) as (_ & _ & _ & _ & H6).
  fold r in H1, H2, H3, H4, H5.
  split; [done|]. split; [done|]. split; [done|]. split; [done|].
  split; [|split; [|split; [done|split]]].
  - subst r sanitized. unfold sanitizeFilename. by intros ->.
  - subst r sanitized. unfold sanitizeFilename.
    by destruct (collapse false _).
  - destruct H5 as [-> | ?]; [rewrite Flen|]; lia.
  - destruct H6 as [-> | ?]; [rewrite Flen|]; unfold default_maxLength in *; lia.
Qed.

Lemma sanitizeFilename_safe_witness :
  sanitizeFilename (of_string "a  b") 50 = of_string "a_b" /\
  sanitizeFilename [] 50 = fallback.
Proof.
  destruct (sanitizeFilename_safe (of_string "a  b") 50) as (_ & _ & _ & _ & _ & Hn & _).
  destruct (sanitizeFilename_safe [] 50) as (_ & _ & _ & _ & He & _).
  split.
  - rewrite Hn; [reflexivity|]. vm_compute. discriminate.
  - apply He. reflexivity.
Defined.
End FilenameFacts.


(** * Further properties

    Properties of the same code that the specification does not state, and
    of the functions around it: the recording handlers, the timer text, the
    background page of the earlier version, and the earlier versions of
    [process] and [sanitizeFilename]. *)

(** ** [process] at TimecodeScale 1,000,000 *)

Lemma byte_of_Z_val b : byte_of_Z (byte_val b) = b.
Proof.
  unfold byte_of_Z. pose proof (byte_val_range b) as R.
  rewrite Z.mod_small by lia. unfold byte_val. rewrite N2Z.id, Byte.of_to_N. done.
Qed.

Lemma byte_of_Z_eq z b : (z mod 256 = byte_val b)%Z -> byte_of_Z z = b.
Proof.
  intros H. rewrite <- (byte_of_Z_val b). unfold byte_of_Z. rewrite H.
  pose proof (byte_val_range b). by rewrite (Z.mod_small (byte_val b)) by lia.
Qed.

Lemma getUint32_bytes dv off w :
  getUint32 dv off = Ok w -> take 4 (drop off dv) = bytes_of_u32 w.
Proof.
  unfold getUint32. destruct (take 4 (drop off dv)) as [|b0 [|b1 [|b2 [|b3 [|? ?]]]]]; try done.
  intros H. apply Ok_inj in H. subst w.
  pose proof (byte_val_range b0). pose proof (byte_val_range b1).
  pose proof (byte_val_range b2). pose proof (byte_val_range b3).
  rewrite (lor_shiftl_add (byte_val b2) (byte_val b3) 8) by lia.
  rewrite (lor_shiftl_add (byte_val b1) _ 16) by lia.
  rewrite (lor_shiftl_add (byte_val b0) _ 24) by lia.
  unfold bytes_of_u32. rewrite !Z.shiftr_div_pow2 by lia.
  f_equal; [|f_equal; [|f_equal; [|f_equal]]];
    symmetry; apply byte_of_Z_eq; Z.div_mod_to_equations; lia.
Qed.

Lemma list_inserts_same (b k : list byte) p :
  take (length k) (drop p b) = k -> list_inserts p k b = b.
Proof.
  intros H. apply list_eq. intros i.
  destruct (decide (i < p)) as [?|?]; [by rewrite list_lookup_inserts_lt|].
  destruct (decide (p + length k <= i)) as [?|?]; [by rewrite list_lookup_inserts_ge|].
  destruct (decide (i < length b)) as [?|?].
  - rewrite list_lookup_inserts by lia.
    rewrite <- H at 1. rewrite lookup_take. rewrite decide_True by lia.
    rewrite lookup_drop. f_equal. lia.
  - rewrite !lookup_ge_None_2; [done|lia|rewrite length_inserts; lia].
Qed.

(** A value that is not a NaN is written as it was read, whatever the
    encoding the implementation gives NaNs. *)
Lemma rewritten_bits_not_nan nan w :
  (0 <= w < 2 ^ 32)%Z -> number_of_f32 (F32.of_bits w) <> S754_nan ->
  rewritten_bits nan w = w.
Proof.
  intros Hw Hn. unfold rewritten_bits.
  destruct (is_nan_bits w) eqn:E; [|done].
  exfalso. by apply Hn, of_bits_is_nan.
Qed.

(** X1: when TimecodeScale reads 1,000,000 and the Duration read is not a
    NaN, [process] writes back the four bytes it read: its result is its
    input, byte for byte. *)
Theorem process_identity_at_unit_scale (nan : nan_encoding) (blob : list byte)
    (elms : list element) (d t : element) :
  decode blob = Ok elms ->
  located "Duration" elms = Some d -> located "TimecodeScale" elms = Some t ->
  getUint32 blob (dataOffset t) = Ok 1000000%Z ->
  value d <> Some S754_nan ->
  4 <= dataSize d -> dataOffset d + dataSize d <= length blob ->
  process nan blob = Ok blob.
Proof.
  intros Hd Ed Et Hscale Hn H4 Hin.
  pose proof (process_cases nan _ _ Hd) as Hc. rewrite Ed, Et in Hc.
  rewrite decide_True in Hc by done. rewrite Hc. f_equal.
  destruct (located_values _ _ _ _ Hd Ed Et) as (raw & scale & Hr & Vd & Hs & Vt & _).
  rewrite Hscale in Hs. apply Ok_inj in Hs. subst scale.
  unfold getFloat32 in Hr.
  destruct (getUint32 blob (dataOffset d)) as [w| |] eqn:Ew; simpl in Hr; try done.
  apply Ok_inj in Hr. subst raw.
  pose proof (getUint32_range _ _ _ Ew) as Hw.
  rewrite Vd, Vt. simpl to_number. rewrite unit_scale_bytes by done.
  rewrite rewritten_bits_not_nan; [|done|congruence].
  apply list_inserts_same. by apply getUint32_bytes.
Qed.

Lemma process_identity_at_unit_scale_witness : process nan_plain sample_1ms = Ok sample_1ms.
Proof.
  assert (exists elms d t, decode sample_1ms = Ok elms /\
            located "Duration" elms = Some d /\ located "TimecodeScale" elms = Some t /\
            dataOffset t = 15 /\ dataOffset d = 24 /\ dataSize d = 4 /\
            value d <> Some S754_nan) as (elms & d & t & Hd & Ed & Et & Ot & Od & Sd & Vd).
  { eexists _, _, _. split; [vm_compute; reflexivity|].
    split; [vm_compute; reflexivity|]. split; [vm_compute; reflexivity|].
    repeat split; try reflexivity. vm_compute. discriminate. }
  apply (process_identity_at_unit_scale nan_plain sample_1ms elms d t Hd Ed Et).
  - rewrite Ot. vm_compute. reflexivity.
  - exact Vd.
  - rewrite Sd. lia.
  - rewrite Od, Sd. vm_compute. lia.
Defined.

(** ** Rounding to binary32, and reading back what was written *)

Section RoundingIsValid.
Local Open Scope Z_scope.
Variables prec emax : Z.
Hypothesis prec_pos : 0 < prec.

Lemma shr_1_half r : 0 <= shr_m r -> shr_m (shr_1 r) = shr_m r / 2.
Proof.
  destruct r as [m b s]. cbn [shr_m]. intros Hm.
  destruct m as [|[p|p|]|p]; try lia; cbn [shr_1 shr_m].
  - reflexivity.
  - rewrite Pos2Z.inj_xI. apply (Z.div_unique _ _ _ 1); lia.
  - rewrite Pos2Z.inj_xO. apply (Z.div_unique _ _ _ 0); lia.
  - reflexivity.
Qed.

Lemma iter_shr_1_div p : forall r,
  0 <= shr_m r ->
  0 <= shr_m (SpecFloat.iter_pos shr_1 p r) /\
  shr_m (SpecFloat.iter_pos shr_1 p r) = shr_m r / 2 ^ Zpos p.
Proof.
  assert (forall a q, 0 <= a -> 0 <= a / 2 ^ Zpos q) as Hq
    by (intros; apply Z.div_pos; [done|apply Z.pow_pos_nonneg; lia]).
  induction p as [p IH|p IH|]; intros r Hr; cbn [SpecFloat.iter_pos].
  - assert (0 <= shr_m (shr_1 r)) as H1
      by (rewrite shr_1_half by done; apply Z.div_pos; lia).
    destruct (IH _ H1) as [H2 E2]. destruct (IH _ H2) as [H3 E3].
    split; [done|]. rewrite E3, E2, shr_1_half by done.
    rewrite pow2_xI, !Z.div_div by (try apply Z.pow_pos_nonneg; lia). done.
  - destruct (IH _ Hr) as [H2 E2]. destruct (IH _ H2) as [H3 E3].
    split; [done|]. rewrite E3, E2.
    rewrite pow2_xO, !Z.div_div by (try apply Z.pow_pos_nonneg; lia). done.
  - rewrite shr_1_half by done. split; [apply Z.div_pos; lia|done].
Qed.

Lemma shr_m_record_of_loc m l : shr_m (shr_record_of_loc m l) = m.
Proof. by destruct l as [|[]]. Qed.

(** The mantissa and the exponent after a right shift by [n]. *)
Lemma shr_div r e n :
  0 <= shr_m r -> 0 <= n ->
  shr_m (fst (shr r e n)) = shr_m r / 2 ^ n /\ snd (shr r e n) = e + n.
Proof.
  intros Hr Hn. destruct n as [|p|p]; try lia; cbn [shr fst snd].
  - rewrite Z.div_1_r. lia.
  - by destruct (iter_shr_1_div p r Hr) as [_ ->].
Qed.

Lemma Zdigits2_div_pow2 m n :
  0 < m -> 0 <= n < Zdigits2 m -> 0 < m / 2 ^ n /\ Zdigits2 (m / 2 ^ n) = Zdigits2 m - n.
Proof.
  intros Hm Hn. destruct (Zdigits2_bounds m Hm) as [Hd [Hlo Hhi]].
  pose proof (Z.pow_pos_nonneg 2 n ltac:(lia) ltac:(lia)) as Hp.
  assert (2 ^ (Zdigits2 m - n - 1) <= m / 2 ^ n) as H1.
  { apply Z.div_le_lower_bound; [done|].
    rewrite <- Z.pow_add_r by lia. by replace (n + (Zdigits2 m - n - 1)) with (Zdigits2 m - 1) by lia. }
  assert (m / 2 ^ n < 2 ^ (Zdigits2 m - n)) as H2.
  { apply Z.div_lt_upper_bound; [done|].
    rewrite <- Z.pow_add_r by lia. by replace (n + (Zdigits2 m - n)) with (Zdigits2 m) by lia. }
  pose proof (Z.pow_pos_nonneg 2 (Zdigits2 m - n - 1) ltac:(lia) ltac:(lia)).
  split; [lia|]. apply Zdigits2_unique; [|lia]. split; [|done]. done.
Qed.

Lemma div_pow2_small m n : 0 < m -> Zdigits2 m <= n -> m / 2 ^ n = 0.
Proof.
  intros Hm Hn. destruct (Zdigits2_bounds m Hm) as [Hd [Hlo Hhi]].
  apply Z.div_small. split; [lia|].
  pose proof (Z.pow_le_mono_r 2 (Zdigits2 m) n). lia.
Qed.

Lemma round_nearest_even_range m l :
  round_nearest_even m l = m \/ round_nearest_even m l = m + 1.
Proof. destruct l as [|[]]; simpl; try destruct (Z.even m); auto. Qed.

Lemma Zdigits2_succ m :
  0 < m ->
  Zdigits2 (m + 1) = Zdigits2 m \/
  (m + 1 = 2 ^ Zdigits2 m /\ Zdigits2 (m + 1) = Zdigits2 m + 1).
Proof.
  intros Hm. destruct (Zdigits2_bounds m Hm) as [Hd [Hlo Hhi]].
  destruct (Z.eq_dec (m + 1) (2 ^ Zdigits2 m)) as [E|N].
  - right. split; [done|]. apply Zdigits2_unique; [|lia].
    replace (Zdigits2 m + 1 - 1) with (Zdigits2 m) by lia.
    rewrite Z.pow_add_r by lia. lia.
  - left. apply Zdigits2_unique; lia.
Qed.

Lemma pow2_half k : 0 < k -> 2 ^ k / 2 ^ 1 = 2 ^ (k - 1).
Proof.
  intros Hk. replace k with (k - 1 + 1) at 1 by lia.
  rewrite Z.pow_add_r by lia. apply Z.div_mul. lia.
Qed.

Lemma Zdigits2_pow2 k : 0 <= k -> Zdigits2 (2 ^ k) = k + 1.
Proof.
  intros Hk. pose proof (Z.pow_pos_nonneg 2 k ltac:(lia) Hk).
  apply Zdigits2_unique; [|done]. replace (k + 1 - 1) with k by lia.
  rewrite Z.pow_add_r by lia. lia.
Qed.

(** The second shift of [binary_round_aux]: a canonical mantissa, or one
    more than a canonical mantissa, comes out canonical. *)
Lemma reshift_canonical m1 m2 e1 :
  0 < m1 -> fexp prec emax (Zdigits2 m1 + e1) = e1 -> m2 = m1 \/ m2 = m1 + 1 ->
  exists m e, shr_fexp prec emax m2 e1 loc_Exact = (Build_shr_record m false false, e) /\
    0 < m /\ fexp prec emax (Zdigits2 m + e) = e.
Proof.
  intros Hm Hc Hm2. unfold fexp in *. unfold shr_fexp, fexp.
  destruct (Zdigits2_bounds m1 Hm) as [Hd _].
  assert (m2 = m1 \/ (m2 = m1 + 1 /\ Zdigits2 m2 = Zdigits2 m1) \/
          (m2 = 2 ^ Zdigits2 m1 /\ Zdigits2 m2 = Zdigits2 m1 + 1)) as [->|[[-> Hk]|[-> Hk]]].
  { destruct Hm2 as [->| ->]; [by left|right].
    destruct (Zdigits2_succ m1 Hm) as [?|[? ?]]; [left|right]; split; congruence. }
  - rewrite Hc, Z.sub_diag. cbn [shr shr_record_of_loc]. by eexists _, _.
  - rewrite Hk, Hc, Z.sub_diag. cbn [shr shr_record_of_loc].
    eexists _, _. split; [done|]. split; [lia|]. by rewrite Hk.
  - rewrite Hk. destruct (Z.max_spec (Zdigits2 m1 + e1 - prec) (SpecFloat.emin prec emax))
      as [[Hlt Hmax]|[Hge Hmax]]; rewrite Hmax in Hc.
    + (* subnormal: the exponent stays *)
      replace (Z.max (Zdigits2 m1 + 1 + e1 - prec) (SpecFloat.emin prec emax) - e1) with 0 by lia.
      cbn [shr shr_record_of_loc]. eexists _, _. split; [done|].
      split; [apply Z.pow_pos_nonneg; lia|]. rewrite Zdigits2_pow2 by lia. lia.
    + (* normal: one more shift *)
      replace (Z.max (Zdigits2 m1 + 1 + e1 - prec) (SpecFloat.emin prec emax) - e1) with 1 by lia.
      cbn [shr shr_record_of_loc SpecFloat.iter_pos].
      assert (2 ^ Zdigits2 m1 = 2 * 2 ^ (Zdigits2 m1 - 1)) as ->.
      { rewrite <- Z.pow_succ_r by lia. f_equal. lia. }
      rewrite shr_1_even by (apply Z.pow_nonneg; lia).
      eexists _, _. split; [done|].
      split; [apply Z.pow_pos_nonneg; lia|]. rewrite Zdigits2_pow2 by lia. lia.
Qed.

(** Rounding gives a value of the format, whatever is rounded, as long as
    the mantissa is not shorter than the format asks at its exponent. *)
Lemma binary_round_aux_valid s mx ex lx :
  0 < mx -> ex <= fexp prec emax (Zdigits2 mx + ex) ->
  valid_binary prec emax (binary_round_aux prec emax s mx ex lx) = true.
Proof.
  intros Hmx Hex. unfold binary_round_aux.
  set (n1 := fexp prec emax (Zdigits2 mx + ex) - ex).
  assert (0 <= n1) as Hn1 by (unfold n1; lia).
  destruct (shr_div (shr_record_of_loc mx lx) ex n1) as [Hm1 He1];
    [rewrite shr_m_record_of_loc; lia|done|].
  rewrite shr_m_record_of_loc in Hm1.
  unfold shr_fexp at 1. fold n1.
  destruct (shr (shr_record_of_loc mx lx) ex n1) as [r1 e1]. cbn [fst snd] in Hm1, He1.
  set (m2 := round_nearest_even (shr_m r1) (loc_of_shr_record r1)).
  assert (m2 = shr_m r1 \/ m2 = shr_m r1 + 1) as Hm2 by apply round_nearest_even_range.
  destruct (Zdigits2_bounds mx Hmx) as [Hd _].
  assert (valid_result :
    forall m e, 0 < m -> fexp prec emax (Zdigits2 m + e) = e ->
      valid_binary prec emax
        match m with
        | 0 => S754_zero s
        | Z.pos m => if e <=? emax - prec then S754_finite s m e else S754_infinity s
        | Z.neg _ => S754_nan
        end = true).
  { intros m e Hm Hc. destruct m as [|p|p]; try lia.
    destruct (e <=? emax - prec) eqn:Ele; [|done].
    cbn [valid_binary]. unfold bounded, canonical_mantissa. rewrite Ele, andb_true_r.
    apply Z.eqb_eq. exact Hc. }
  destruct (Z.le_gt_cases (Zdigits2 mx) n1) as [Hsmall|Hbig].
  - (* everything is shifted out *)
    rewrite div_pow2_small in Hm1 by done.
    assert (e1 = SpecFloat.emin prec emax) as Hmin by (unfold n1, fexp in *; lia).
    rewrite Hm1 in Hm2. change (0 + 1) with 1 in Hm2. destruct Hm2 as [E|E]; rewrite E.
    + unfold shr_fexp. cbn [Zdigits2]. rewrite Hmin. unfold fexp.
      replace (Z.max (0 + SpecFloat.emin prec emax - prec) (SpecFloat.emin prec emax)
               - SpecFloat.emin prec emax) with 0 by lia.
      reflexivity.
    + unfold shr_fexp. cbn [Zdigits2 digits2_pos]. rewrite Hmin. unfold fexp.
      replace (Z.max (1 + SpecFloat.emin prec emax - prec) (SpecFloat.emin prec emax)
               - SpecFloat.emin prec emax) with 0 by lia.
      cbn [shr shr_record_of_loc shr_m Z.add].
      apply (valid_result 1); [lia|]. unfold fexp. cbn [Zdigits2 digits2_pos]. lia.
  - destruct (Zdigits2_div_pow2 mx n1 Hmx ltac:(lia)) as [Hpos Hdig].
    rewrite <- Hm1 in Hpos, Hdig.
    assert (fexp prec emax (Zdigits2 (shr_m r1) + e1) = e1) as Hc1.
    { rewrite Hdig, He1. unfold n1.
      replace (Zdigits2 mx - (fexp prec emax (Zdigits2 mx + ex) - ex) +
               (ex + (fexp prec emax (Zdigits2 mx + ex) - ex)))
        with (Zdigits2 mx + ex) by lia. lia. }
    destruct (reshift_canonical (shr_m r1) m2 e1 Hpos Hc1 Hm2) as (m & e & -> & Hm & Hc).
    cbn [shr_m]. by apply valid_result.
Qed.

Lemma binary_round_valid s m e :
  valid_binary prec emax (binary_round prec emax s m e) = true.
Proof.
  unfold binary_round, shl_align.
  destruct (fexp prec emax (Zpos (digits2_pos m) + e) - e) as [|d|d] eqn:E.
  - apply binary_round_aux_valid; [lia|]. cbn [Zdigits2]. lia.
  - apply binary_round_aux_valid; [lia|]. cbn [Zdigits2]. lia.
  - apply binary_round_aux_valid; [lia|].
    rewrite Zpos_iter_xO, Zdigits2_mul_pow2 by lia. cbn [Zdigits2].
    replace (Zpos (digits2_pos m) + Zpos d + fexp prec emax (Zpos (digits2_pos m) + e))
      with (Zpos (digits2_pos m) + e) by lia. lia.
Qed.
End RoundingIsValid.

Section Binary32RoundTrip.
Local Open Scope Z_scope.

Lemma round32_valid x : valid_binary 24 128 (F32.round x) = true.
Proof.
  destruct x as [s|s| |s m e]; try done. unfold F32.round.
  apply binary_round_valid. done.
Qed.

(** The fields of the pattern of a value of the format. *)
Lemma to_bits_fields nan x :
  valid_binary 24 128 x = true ->
  exists sb ex fr,
    (sb = 0 \/ sb = 1) /\ 0 <= ex < 256 /\ 0 <= fr < 2 ^ 23 /\
    F32.to_bits nan x = sb * 2 ^ 31 + ex * 2 ^ 23 + fr /\
    match x with
    | S754_zero s => sb = Z.b2z s /\ ex = 0 /\ fr = 0
    | S754_infinity s => sb = Z.b2z s /\ ex = 255 /\ fr = 0
    | S754_nan => ex = 255 /\ 1 <= fr
    | S754_finite s m e =>
        sb = Z.b2z s /\
        ((ex = 0 /\ fr = Zpos m /\ e = -149) \/
         (1 <= ex <= 254 /\ fr + 2 ^ 23 = Zpos m /\ e = ex - 150))
    end.
Proof.
  intros Hv. destruct x as [s|s| |s m e].
  3:{ destruct (nan_bits_fields nan) as (fr & Hfr & Hw).
      exists (Z.b2z (nan_sign nan)), 255, fr.
      change (F32.to_bits nan S754_nan) with (F32.nan_bits nan).
      split; [destruct (nan_sign nan); simpl; lia|]. split; [lia|].
      split; [lia|]. split; [exact Hw|lia]. }
  all: unfold F32.to_bits, float_bits;
    change (2 ^ (23 + 8)) with (2 ^ 31); change (2 ^ 8 - 1) with 255;
    change (3 - 2 ^ (8 - 1) - (23 + 1)) with (-149);
    change (2 ^ 31) with 2147483648; change (2 ^ 23) with 8388608.
  - exists (Z.b2z s), 0, 0. destruct s; simpl; lia.
  - exists (Z.b2z s), 255, 0. destruct s; simpl; lia.
  - cbn [valid_binary] in Hv. unfold bounded, canonical_mantissa, fexp, SpecFloat.emin in Hv.
    apply andb_true_iff in Hv as [Hc Hle]. apply Z.eqb_eq in Hc. apply Z.leb_le in Hle.
    pose proof (digits2_pos_bounds m) as [Hlo Hhi].
    destruct (8388608 <=? Zpos m) eqn:Em; [apply Z.leb_le in Em|apply Z.leb_gt in Em].
    + assert (Zpos (digits2_pos m) = 24) as Hd.
      { destruct (Z.lt_ge_cases (Zpos (digits2_pos m)) 24) as [L|G]; [|lia].
        pose proof (Z.pow_le_mono_r 2 (Zpos (digits2_pos m)) 23). 
        change (2 ^ 23) with 8388608 in *. lia. }
      rewrite Hd in Hhi. change (2 ^ 24) with 16777216 in Hhi.
      exists (Z.b2z s), (e + 150), (Zpos m - 8388608).
      destruct s; simpl Z.b2z; split; try lia; split; try lia; split; try lia;
        split; try lia; split; try lia; right; lia.
    + assert (Zpos (digits2_pos m) <= 23) as Hd.
      { destruct (Z.lt_ge_cases 23 (Zpos (digits2_pos m))) as [L|G]; [|lia].
        pose proof (Z.pow_le_mono_r 2 23 (Zpos (digits2_pos m) - 1)).
        change (2 ^ 23) with 8388608 in *. lia. }
      exists (Z.b2z s), 0, (Zpos m).
      destruct s; simpl Z.b2z; split; try lia; split; try lia; split; try lia;
        split; try lia; split; try lia; left; lia.
Qed.

(** Writing a value of the format and reading it back gives the value,
    whatever the encoding in which a NaN is written. *)
Lemma of_bits_to_bits nan x :
  valid_binary 24 128 x = true ->
  (0 <= F32.to_bits nan x < 2 ^ 32) /\ F32.of_bits (F32.to_bits nan x) = x.
Proof.
  intros Hv. destruct (to_bits_fields nan x Hv) as (sb & ex & fr & Hsb & Hex & Hfr & Hw & Hx).
  change (2 ^ 23) with 8388608 in *. change (2 ^ 31) with 2147483648 in *.
  assert (0 <= F32.to_bits nan x < 2 ^ 32) as Hr.
  { rewrite Hw. change (2 ^ 32) with 4294967296. lia. }
  split; [done|].
  destruct (of_bits_fields _ Hr) as (sb' & ex' & fr' & Hsb' & Hex' & Hfr' & Hw' & Ht & He & Hf & _).
  change (2 ^ 23) with 8388608 in *. change (2 ^ 31) with 2147483648 in *.
  assert (sb' = sb /\ ex' = ex /\ fr' = fr) as (-> & -> & ->) by lia.
  unfold F32.of_bits. change (2 ^ 23) with 8388608. rewrite Ht, He, Hf.
  unfold F32.emin, SpecFloat.emin, F32.prec, F32.emax.
  destruct x as [s|s| |s m e].
  - destruct Hx as (-> & -> & ->). by destruct s.
  - destruct Hx as (-> & -> & ->). by destruct s.
  - destruct Hx as (-> & Hfr1). rewrite (proj2 (Z.eqb_neq fr 0)) by lia. done.
  - destruct Hx as (-> & [(-> & -> & ->)|(H1 & H2 & ->)]).
    + by destruct s.
    + rewrite (proj2 (Z.eqb_neq ex 0)), (proj2 (Z.eqb_neq ex 255)) by lia.
      rewrite H2. destruct s; simpl Z.b2z; simpl Z.eqb; f_equal; lia.
Qed.
End Binary32RoundTrip.

(** X2: decoding the result of [process] finds the Duration element at its
    place, with the binary32 rounding of raw * scale / 1000 / 1000 as its
    value, and the TimecodeScale element as it was: what was written reads
    back as the value that was computed. *)
Theorem process_then_decode (nan : nan_encoding) (blob : list byte)
    (elms : list element) (d t : element) :
  decode blob = Ok elms ->
  located "Duration" elms = Some d -> located "TimecodeScale" elms = Some t ->
  4 <= dataSize d -> dataOffset d + dataSize d <= length blob ->
  exists out elms',
    process nan blob = Ok out /\ decode out = Ok elms' /\
    located "Duration" elms' =
      Some (with_value d
              (Some (number_of_f32 (F32.round
                 (scaled_duration (to_number (value d)) (to_number (value t))))))) /\
    located "TimecodeScale" elms' = Some t.
Proof.
  intros Hd Ed Et H4 Hin.
  pose proof (process_cases nan _ _ Hd) as Hc. rewrite Ed, Et in Hc.
  rewrite decide_True in Hc by done.
  set (x := scaled_duration (to_number (value d)) (to_number (value t))) in *.
  destruct (decode_after_patch blob (float32_bytes nan x) elms d t Hd Ed Et H4 Hin
              (length_float32_bytes nan x)) as (v & elms' & Hv & Hd' & Ed' & Et' & _).
  exists (list_inserts (dataOffset d) (float32_bytes nan x) blob), elms'.
  split; [done|]. split; [done|]. split; [|done].
  rewrite Ed'. do 3 f_equal.
  destruct (of_bits_to_bits nan (F32.round x) (round32_valid x)) as [Hr Hrt].
  unfold getFloat32, float32_bytes in Hv.
  rewrite getUint32_inserts in Hv by (done || lia).
  cbn [obind] in Hv. apply Ok_inj in Hv. by rewrite <- Hv, Hrt.
Qed.

Lemma process_then_decode_witness :
  exists out elms' d',
    process nan_plain sample_2ms = Ok out /\ decode out = Ok elms' /\
    located "Duration" elms' = Some d' /\
    value d' = Some (number_of_f32 (F32.of_bits 0x461C4000)).
Proof.
  assert (exists elms d t, decode sample_2ms = Ok elms /\
            located "Duration" elms = Some d /\ located "TimecodeScale" elms = Some t /\
            dataOffset d = 24 /\ dataSize d = 4 /\
            F32.round (scaled_duration (to_number (value d)) (to_number (value t))) =
              F32.of_bits 0x461C4000)
    as (elms & d & t & Hd & Ed & Et & Od & Sd & Vd).
  { eexists _, _, _. split; [vm_compute; reflexivity|].
    split; [vm_compute; reflexivity|]. split; [vm_compute; reflexivity|].
    repeat split; vm_compute; reflexivity. }
  destruct (process_then_decode nan_plain sample_2ms elms d t Hd Ed Et)
    as (out & elms' & Hp & Hd' & Ed' & _).
  - rewrite Sd. lia.
  - rewrite Od, Sd. vm_compute. lia.
  - eexists out, elms', _. split; [exact Hp|]. split; [exact Hd'|]. split; [exact Ed'|].
    cbn [with_value value]. by rewrite Vd.
Defined.

(** ** [process] at TimecodeScale 0 *)

Lemma scaled_duration_zero nan x :
  float32_bytes nan (scaled_duration x (F64.of_Z 0)) = bytes_of_u32 (times_zero_bits nan x).
Proof.
  unfold float32_bytes. f_equal.
  destruct x as [s|s| |s m e]; try destruct s; reflexivity.
Qed.

(** The three encodings named above are what [F32.nan_bits] gives for
    them; a NaN at TimecodeScale 0 is written in the one the implementation
    chooses, for instance with the sign bit set. *)
Example nan_bits_samples :
  bytes_of_u32 (F32.nan_bits nan_plain) = [x7f; xc0; x00; x00] /\
  bytes_of_u32 (F32.nan_bits nan_carried) = [x7f; xc0; x00; x01] /\
  bytes_of_u32 (times_zero_bits nan_negative (S754_infinity false)) = [xff; xc0; x00; x00].
Proof. repeat split; vm_compute; reflexivity. Qed.

(** X3: when TimecodeScale reads 0, the first four payload bytes of
    Duration are overwritten with a zero of the sign of the Duration read
    when that was zero or finite; when it was infinite or a NaN the product
    is a NaN, and the four bytes are a NaN in the encoding the
    implementation chooses ([nan]), which the language leaves open. *)
Theorem process_zero_timecode_scale (nan : nan_encoding) (blob : list byte)
    (elms : list element) (d t : element) :
  decode blob = Ok elms ->
  located "Duration" elms = Some d -> located "TimecodeScale" elms = Some t ->
  getUint32 blob (dataOffset t) = Ok 0%Z ->
  4 <= dataSize d -> dataOffset d + dataSize d <= length blob ->
  process nan blob =
    Ok (list_inserts (dataOffset d)
          (bytes_of_u32 (times_zero_bits nan (to_number (value d)))) blob).
Proof.
  intros Hd Ed Et Hscale H4 Hin.
  pose proof (process_cases nan _ _ Hd) as Hc. rewrite Ed, Et in Hc.
  rewrite decide_True in Hc by done. rewrite Hc. f_equal.
  destruct (located_values _ _ _ _ Hd Ed Et) as (raw & scale & _ & _ & Hs & Vt & _).
  rewrite Hscale in Hs. apply Ok_inj in Hs. subst scale.
  rewrite Vt. simpl to_number. by rewrite scaled_duration_zero.
Qed.

Lemma process_zero_timecode_scale_witness :
  process nan_plain sample_0ms = Ok (list_inserts 24 [x00; x00; x00; x00] sample_0ms).
Proof.
  assert (exists elms d t, decode sample_0ms = Ok elms /\
            located "Duration" elms = Some d /\ located "TimecodeScale" elms = Some t /\
            dataOffset t = 15 /\ dataOffset d = 24 /\ dataSize d = 4 /\
            bytes_of_u32 (times_zero_bits nan_plain (to_number (value d))) =
              [x00; x00; x00; x00])
    as (elms & d & t & Hd & Ed & Et & Ot & Od & Sd & Vd).
  { eexists _, _, _. split; [vm_compute; reflexivity|].
    split; [vm_compute; reflexivity|]. split; [vm_compute; reflexivity|].
    repeat split; vm_compute; reflexivity. }
  rewrite <- Vd, <- Od.
  apply (process_zero_timecode_scale nan_plain sample_0ms elms d t Hd Ed Et).
  - rewrite Ot. vm_compute. reflexivity.
  - rewrite Sd. lia.
  - rewrite Od, Sd. vm_compute. lia.
Defined.

(** ** The tree and the flat array *)

Lemma find_named_build_tree n els :
  fst <$> find_named n (build_tree els) = fst <$> find_named n els /\
  (n <> "Segment" -> n <> "Info" -> find_named n (build_tree els) = find_named n els).
Proof.
  unfold build_tree.
  destruct (find_named "Segment" els) as [[si seg]|] eqn:Es; [|done].
  destruct (find_named "Info" els) as [[ii info]|] eqn:Ei; [|done].
  pose proof (find_named_elem _ _ _ _ Es) as Hsi.
  pose proof (find_named_name _ _ _ _ Es) as Hsn.
  pose proof (find_named_elem _ _ _ _ Ei) as Hii.
  pose proof (find_named_name _ _ _ _ Ei) as Hin.
  assert (si <> ii) as Hne by (intros ->; simplify_eq; congruence).
  rewrite (find_named_insert_same n _ si seg).
  2:{ by rewrite list_lookup_insert_ne. }
  2:{ by destruct seg. }
  rewrite (find_named_insert_same n _ ii info) by (done || by destruct info).
  destruct (find_named n els) as [[k x]|] eqn:En; simpl; [|done].
  split; [done|]. intros N1 N2.
  pose proof (find_named_elem _ _ _ _ En) as Hk.
  pose proof (find_named_name _ _ _ _ En) as Hkn.
  rewrite !decide_False; [done| |]; intros ->; simplify_eq; congruence.
Qed.

(** X4: the Duration and the TimecodeScale that [process] looks up under
    Segment and Info are the first elements of these names in the whole
    array, wherever they stand, as soon as the array holds a Segment and an
    Info at all; there is none otherwise. *)
Theorem process_lookup_ignores_nesting (buffer : list byte) (elms : list element) (n : string) :
  decode buffer = Ok elms ->
  n = "Duration" \/ n = "TimecodeScale" ->
  located n elms =
    match find_named "Segment" elms, find_named "Info" elms with
    | Some _, Some _ => snd <$> find_named n elms
    | _, _ => None
    end.
Proof.
  intros Hd Hn. apply decode_Ok in Hd as (els & Hs & ->).
  apply scan_laid_out in Hs as [_ HF].
  rewrite (located_build_tree n els HF Hn).
  destruct (find_named_build_tree "Segment" els) as [Hseg _].
  destruct (find_named_build_tree "Info" els) as [Hinf _].
  destruct (find_named_build_tree n els) as [_ Hsame].
  rewrite Hsame by (destruct Hn as [-> | ->]; done).
  destruct (find_named "Segment" els), (find_named "Segment" (build_tree els));
    try done;
  destruct (find_named "Info" els), (find_named "Info" (build_tree els)); done.
Qed.

Lemma process_lookup_ignores_nesting_witness :
  exists elms d,
    decode sample_unordered = Ok elms /\
    located "Duration" elms = Some d /\ find_named "Duration" elms = Some (0, d).
Proof.
  assert (exists elms, decode sample_unordered = Ok elms) as [elms Hd].
  { eexists. vm_compute. reflexivity. }
  pose proof (process_lookup_ignores_nesting sample_unordered elms "Duration" Hd
                (or_introl eq_refl)) as H.
  vm_compute in Hd. apply Ok_inj in Hd. subst elms.
  eexists _, _. split; [vm_compute; reflexivity|].
  split; [rewrite H|]; vm_compute; reflexivity.
Defined.

(** ** What the loop reads and what it skips *)

Lemma bytes_read_le e : bytes_read e <= 4.
Proof. unfold bytes_read. case_decide; lia. Qed.

Lemma read_value_skip dv dv' ty off :
  (forall i, off <= i < off + (if decide (ty = "f" \/ ty = "u") then 4 else 0) ->
     dv' !! i = dv !! i) ->
  read_value dv' ty off = read_value dv ty off.
Proof.
  intros H. case_decide as Hty.
  - apply read_value_ext, window_eq. done.
  - unfold read_value. rewrite !decide_False by tauto. done.
Qed.

Lemma scan_body_skip dv dv' off e next :
  scan_body dv off = Ok (e, next) ->
  (forall i, off <= i < off + 5 + bytes_read e -> dv' !! i = dv !! i) ->
  scan_body dv' off = Ok (e, next).
Proof.
  intros Hb H. rewrite <- Hb. revert Hb. unfold scan_body.
  rewrite (readEbmlHeader_ext dv dv' off) by (apply window_eq; intros; apply H; lia).
  destruct (_readEbmlHeader dv off) as [h| |] eqn:Eh; simpl; try done.
  destruct (readEbmlHeader_inv _ _ _ Eh) as (-> & _).
  destruct (read_value dv _ _) as [v| |] eqn:Ev; simpl; try done.
  intros He. apply Ok_inj in He. injection He as <- <-.
  rewrite (read_value_skip dv dv'), Ev; [done|].
  intros i Hi. apply H. unfold bytes_read. simpl. lia.
Qed.

(** The loop reads five header bytes per element and four payload bytes of
    a float or an unsigned integer, and nothing else. *)
Lemma scan_skip fuel : forall (b b' : list byte) off els,
  length b' = length b ->
  scan fuel b off [] = Ok els ->
  (forall i, off <= i -> ~ skipped els i -> b' !! i = b !! i) ->
  scan fuel b' off [] = Ok els.
Proof.
  induction fuel as [|fuel IH]; intros b b' off els HL; rewrite !(scan_unfold _ _ off), HL.
  - done.
  - case_decide; [|done].
    destruct (scan_body b off) as [[e next]| |] eqn:E; simpl; try done.
    rewrite (scan_acc _ b).
    destruct (scan fuel b next []) as [new| |] eqn:En; simpl; try done.
    intros Hels H'. apply Ok_inj in Hels. subst els.
    pose proof (scan_body_inv _ _ _ _ E) as (_ & Ho & _ & Hn & _).
    destruct (scan_laid_out _ _ _ _ En) as [Hlay _].
    rewrite (scan_body_skip b b' off e next E); simpl.
    + rewrite scan_acc. rewrite (IH b b' next new HL En); [done|].
      intros i Hi Hns. apply H'; [lia|].
      intros (j & e' & Hj & Hr). destruct j as [|j]; simpl in Hj.
      * simplify_eq. lia.
      * apply Hns. by exists j, e'.
    + intros i Hi. apply H'; [lia|].
      intros (j & e' & Hj & Hr). destruct j as [|j]; simpl in Hj.
      * simplify_eq. lia.
      * pose proof (laid_out_after _ _ _ _ Hlay Hj). pose proof (bytes_read_le e). lia.
Qed.

(** X5: what lies in a declared payload behind the bytes the loop reads
    does not count. A buffer that differs from one that decodes only at
    such positions decodes to the same array. *)
Theorem decode_skips_payloads (b b' : list byte) (elms : list element) :
  decode b = Ok elms -> length b' = length b ->
  (forall i, ~ skipped elms i -> b' !! i = b !! i) ->
  decode b' = Ok elms.
Proof.
  intros Hd HL H. apply decode_Ok in Hd as (els & Hs & ->). apply decode_Ok.
  exists els. split; [|done]. rewrite HL. apply (scan_skip _ b); try done.
  intros i _ Hns. apply H. intros (j & e' & Hj & Hr). apply Hns.
  destruct (build_tree_shape els) as [_ Hsh].
  destruct (Hsh _ _ Hj) as (e & He & _ & Ht & Ho & Hz & _).
  exists j, e. split; [done|]. unfold bytes_read in *. rewrite Ht, Ho, Hz in Hr. done.
Qed.

Lemma decode_skips_payloads_witness :
  decode (ebml_start ++ [xff]) = decode (ebml_start ++ [x00]).
Proof.
  assert (decode (ebml_start ++ [x00]) = Ok [Element "Unknown" "b" 5 31 [] None]) as Hd
    by (vm_compute; reflexivity).
  rewrite Hd. apply (decode_skips_payloads (ebml_start ++ [x00]) _ _ Hd); [reflexivity|].
  intros i Hns. destruct (decide (i = 5)) as [->|Hi].
  - exfalso. apply Hns. exists 0, (Element "Unknown" "b" 5 31 [] None).
    split; [reflexivity|]. vm_compute. lia.
  - do 5 (destruct i as [|i]; [reflexivity|]). destruct i as [|i]; [lia|reflexivity].
Defined.

(** Headers lie inside the buffer, and the loop stops at its end or behind. *)
Lemma scan_tiles fuel : forall dv off els,
  scan fuel dv off [] = Ok els ->
  Forall (fun e => dataOffset e <= length dv) els /\
  off + 5 * length els <= off `max` length dv /\
  length dv <= default off (payload_end <$> last els).
Proof.
  induction fuel as [|fuel IH]; intros dv off els; rewrite scan_unfold.
  - case_decide; [done|]. intros [= <-]. simpl. split; [done|]. lia.
  - case_decide; [|intros [= <-]; simpl; split; [done|lia]].
    destruct (scan_body dv off) as [[e next]| |] eqn:E; simpl; try done.
    rewrite scan_acc.
    destruct (scan fuel dv next []) as [new| |] eqn:En; simpl; try done.
    intros [= <-]. apply scan_body_inv in E as (? & ? & ? & ? & _).
    destruct (IH _ _ _ En) as (IH1 & IH2 & IH3).
    split; [constructor; [lia|done]|]. split.
    + simpl. lia.
    + destruct new as [|e' new]; [simpl in *; unfold payload_end; lia|].
      rewrite last_cons_cons. destruct (last (e' :: new)) eqn:EL; [done|].
      by apply last_None in EL.
Qed.

(** X6: when [decode] returns, the five header bytes of every element lie
    inside the buffer, so there is at most one element per five bytes; the
    declared payload of the last element ends at the end of the buffer or
    behind it; and the array is empty for the empty buffer only. *)
Theorem decode_tiles_buffer (buffer : list byte) (elms : list element) :
  decode buffer = Ok elms ->
  5 * length elms <= length buffer /\
  Forall (fun e => 5 <= dataOffset e <= length buffer) elms /\
  match last elms with
  | Some e => length buffer <= dataOffset e + dataSize e
  | None => buffer = []
  end.
Proof.
  intros Hd. apply decode_Ok in Hd as (els & Hs & ->).
  destruct (scan_tiles _ _ _ _ Hs) as (H1 & H2 & H3).
  destruct (scan_laid_out _ _ _ _ Hs) as [Hlay _].
  destruct (build_tree_shape els) as [HL Hsh].
  rewrite HL. split; [lia|]. split.
  - apply Forall_lookup. intros i e' Hi.
    destruct (Hsh _ _ Hi) as (e & He & _ & _ & -> & _).
    rewrite Forall_lookup in H1. pose proof (H1 _ _ He).
    pose proof (laid_out_after _ _ _ _ Hlay He). lia.
  - rewrite last_lookup, HL. rewrite last_lookup in H3.
    destruct (build_tree els !! pred (length els)) as [e'|] eqn:E'.
    + destruct (Hsh _ _ E') as (e & He & _ & _ & -> & -> & _).
      rewrite He in H3. exact H3.
    + apply lookup_ge_None in E'. rewrite HL in E'.
      destruct els as [|? ?]; [|simpl in E'; lia].
      simpl in H3. destruct buffer; [done|simpl in H3; lia].
Qed.

Lemma decode_tiles_buffer_witness :
  exists e, decode ebml_start = Ok [e] /\ dataOffset e = 5 /\ dataSize e = 31 /\
    length ebml_start <= dataOffset e + dataSize e.
Proof.
  assert (decode ebml_start = Ok [Element "Unknown" "b" 5 31 [] None]) as Hd
    by (vm_compute; reflexivity).
  pose proof (decode_tiles_buffer ebml_start _ Hd) as (_ & _ & H).
  eexists. split; [exact Hd|]. split; [reflexivity|]. split; [reflexivity|]. exact H.
Defined.

(** ** Decoding buffers put one after the other *)

Lemma scan_enough fuel fuel' dv off acc :
  length dv <= off + 5 * fuel -> length dv <= off + 5 * fuel' ->
  scan fuel dv off acc = scan fuel' dv off acc.
Proof.
  intros H H'. destruct (decide (fuel <= fuel')).
  - symmetry. apply scan_fuel_mono; [done|]. by apply scan_no_Diverge.
  - apply scan_fuel_mono; [lia|]. by apply scan_no_Diverge.
Qed.

Lemma getUint32_app_l (b1 b2 : list byte) off w :
  getUint32 b1 off = Ok w -> getUint32 (b1 ++ b2) off = Ok w.
Proof.
  intros H. pose proof (getUint32_inv _ _ _ H) as HL. rewrite <- H.
  apply getUint32_ext, window_eq. intros i Hi. apply lookup_app_l. lia.
Qed.

Lemma read_value_app_l (b1 b2 : list byte) ty off v :
  read_value b1 ty off = Ok v -> read_value (b1 ++ b2) ty off = Ok v.
Proof.
  unfold read_value, getFloat32. repeat case_decide; try done;
    destruct (getUint32 b1 off) as [w| |] eqn:E; simpl; try done;
    by rewrite (getUint32_app_l _ b2 _ _ E).
Qed.

Lemma scan_body_app_l (b1 b2 : list byte) off p :
  scan_body b1 off = Ok p -> scan_body (b1 ++ b2) off = Ok p.
Proof.
  unfold scan_body.
  destruct (_readEbmlHeader b1 off) as [h| |] eqn:Eh; simpl; try done.
  destruct (readEbmlHeader_inv _ _ _ Eh) as (_ & _ & HL).
  rewrite (readEbmlHeader_ext b1 (b1 ++ b2) off), Eh; simpl.
  2:{ apply window_eq. intros i Hi. apply lookup_app_l. lia. }
  destruct (read_value b1 _ _) as [v| |] eqn:Ev; simpl; try done.
  by rewrite (read_value_app_l _ b2 _ _ _ Ev).
Qed.

Lemma cursor_cons off e els : cursor off (e :: els) = cursor (payload_end e) els.
Proof.
  unfold cursor. destruct els as [|e' els]; [done|]. rewrite last_cons_cons.
  destruct (last (e' :: els)) eqn:E; [done|]. by apply last_None in E.
Qed.

Lemma scan_cursor fuel : forall dv off els,
  scan fuel dv off [] = Ok els -> off <= cursor off els.
Proof.
  induction fuel as [|fuel IH]; intros dv off els; rewrite scan_unfold.
  - case_decide; [done|]. by intros [= <-].
  - case_decide; [|by intros [= <-]].
    destruct (scan_body dv off) as [[e next]| |] eqn:E; simpl; try done.
    rewrite scan_acc.
    destruct (scan fuel dv next []) as [new| |] eqn:En; simpl; try done.
    intros [= <-]. apply scan_body_inv in E as (? & ? & ? & -> & _).
    rewrite cursor_cons. apply IH in En. unfold payload_end in *. lia.
Qed.

(** A run that ends exactly at the end of [b1] is the beginning of the run
    on [b1 ++ b2]. *)
Lemma scan_app_l fuel : forall (b1 b2 : list byte) off els fuel',
  scan fuel b1 off [] = Ok els -> cursor off els = length b1 ->
  length (b1 ++ b2) <= off + 5 * fuel' ->
  scan fuel' (b1 ++ b2) off [] =
    letO rest := scan fuel' (b1 ++ b2) (length b1) [] in Ok (els ++ rest).
Proof.
  induction fuel as [|fuel IH]; intros b1 b2 off els fuel'; rewrite (scan_unfold _ b1).
  - case_decide; [done|]. intros [= <-] Hc _. unfold cursor in Hc. simpl in Hc. subst off.
    by destruct (scan fuel' _ _ _).
  - case_decide as Hoff.
    2:{ intros [= <-] Hc _. unfold cursor in Hc. simpl in Hc. subst off.
        by destruct (scan fuel' _ _ _). }
    destruct (scan_body b1 off) as [[e next]| |] eqn:E; simpl; try done.
    rewrite scan_acc.
    destruct (scan fuel b1 next []) as [new| |] eqn:En; simpl; try done.
    intros [= <-] Hc Hf. rewrite cursor_cons in Hc.
    pose proof (scan_body_inv _ _ _ _ E) as (? & ? & ? & Hn & _).
    unfold payload_end in Hc. rewrite <- Hn in Hc.
    pose proof (scan_cursor _ _ _ _ En) as Hle.
    destruct fuel' as [|fuel']; [rewrite length_app in Hf; lia|].
    rewrite (scan_enough (S fuel') fuel' (b1 ++ b2) (length b1)) by (rewrite length_app in *; lia).
    rewrite (scan_unfold (S fuel') _ off). rewrite decide_True by (rewrite length_app; lia).
    rewrite (scan_body_app_l _ b2 _ _ E). cbn [obind fst snd].
    rewrite scan_acc. rewrite (IH b1 b2 next new fuel' En Hc) by lia.
    by destruct (scan fuel' _ _ _).
Qed.

(** Reading behind [k] bytes is reading the rest at offsets moved by [k]. *)
Lemma scan_body_shift (pre b : list byte) off :
  scan_body (pre ++ b) (length pre + off) =
    letO p := scan_body b off in Ok (shift (length pre) (fst p), length pre + snd p).
Proof.
  assert (forall o, drop (length pre + o) (pre ++ b) = drop o b) as Hd.
  { intros o. by rewrite drop_app_add. }
  assert (forall o, getUint32 (pre ++ b) (length pre + o) = getUint32 b o) as H32.
  { intros o. unfold getUint32. by rewrite Hd. }
  unfold scan_body, _readEbmlHeader. rewrite H32.
  destruct (getUint32 b off) as [i| |]; simpl; try done.
  unfold getUint8. rewrite <- Nat.add_assoc, lookup_app_r, Nat.add_sub' by lia.
  destruct (b !! (off + 4)) as [sz|]; simpl; [|done].
  unfold read_value, getFloat32. rewrite <- !Nat.add_assoc, !H32.
  repeat case_decide; try destruct (getUint32 b (off + 5)) as [w| |]; simpl; try done;
    unfold shift; simpl; repeat f_equal; lia.
Qed.

Lemma scan_shift fuel : forall (pre b : list byte) off,
  scan fuel (pre ++ b) (length pre + off) [] =
    letO els := scan fuel b off [] in Ok (shift (length pre) <$> els).
Proof.
  induction fuel as [|fuel IH]; intros pre b off; rewrite !(scan_unfold _ _ _ []), length_app.
  - repeat case_decide; simpl; try done; lia.
  - case_decide; case_decide; try lia; [|done].
    rewrite scan_body_shift.
    destruct (scan_body b off) as [[e next]| |]; simpl; try done.
    rewrite scan_acc, IH, (scan_acc _ b next [e]).
    destruct (scan fuel b next []); simpl; done.
Qed.

Lemma build_tree_fmap {A} (f : element -> A) els :
  (forall e cs, f (push_children e cs) = f e) -> f <$> build_tree els = f <$> els.
Proof.
  intros Hf. unfold build_tree.
  destruct (find_named "Segment" els) as [[si seg]|] eqn:Es; [|done].
  destruct (find_named "Info" els) as [[ii info]|] eqn:Ei; [|done].
  apply find_named_elem in Es, Ei.
  rewrite !list_fmap_insert, !Hf.
  rewrite (list_insert_id (f <$> els) ii) by (by rewrite list_lookup_fmap, Ei).
  rewrite (list_insert_id (f <$> els) si) by (by rewrite list_lookup_fmap, Es).
  done.
Qed.

Lemma cursor_build_tree off els : cursor off (build_tree els) = cursor off els.
Proof.
  unfold cursor. rewrite <- !fmap_last.
  by rewrite (build_tree_fmap payload_end) by (by intros [] ?).
Qed.

(** X7: decoding two buffers put one after the other, when the elements of
    the first end exactly at its end, gives the elements of the first, then
    those of the second at their new offsets, with the values read in each;
    and it throws when decoding the second throws. *)
Theorem decode_app (b1 b2 : list byte) (elms1 : list element) :
  decode b1 = Ok elms1 -> cursor 0 elms1 = length b1 ->
  match decode b2 with
  | Ok elms2 =>
      exists elms, decode (b1 ++ b2) = Ok elms /\
        outline elms = outline elms1 ++ outline (shift (length b1) <$> elms2) /\
        value <$> elms = (value <$> elms1) ++ (value <$> elms2)
  | Throw e => decode (b1 ++ b2) = Throw e
  | Diverge => False
  end.
Proof.
  intros Hd Hc. apply decode_Ok in Hd as (els1 & Hs1 & ->).
  rewrite cursor_build_tree in Hc.
  pose proof (scan_app_l _ b1 b2 0 els1 (length (b1 ++ b2)) Hs1 Hc ltac:(lia)) as H.
  pose proof (scan_shift (length (b1 ++ b2)) b1 b2 0) as Hsh.
  rewrite Nat.add_0_r in Hsh. rewrite Hsh in H. clear Hsh.
  rewrite (scan_enough _ (length b2) b2 0) in H by (rewrite ?length_app; lia).
  unfold decode at 1 2, decode_fuel.
  pose proof (scan_no_Diverge (length b2) b2 0 [] ltac:(lia)) as Hnd.
  destruct (scan (length b2) b2 0 []) as [els2| |]; cbn [obind] in *; [| |done].
  - eexists. unfold decode, decode_fuel. rewrite H. cbn [obind]. split; [reflexivity|].
    unfold outline. rewrite <- !list_fmap_compose.
    rewrite !build_tree_fmap by (by intros [] ?).
    rewrite !fmap_app, <- !list_fmap_compose. done.
  - unfold decode, decode_fuel. by rewrite H.
Qed.

Lemma decode_app_witness :
  exists elms, decode (sample_1ms ++ ebml_start) = Ok elms /\
    outline elms =
      [("Segment", 5, 0); ("Info", 10, 0); ("TimecodeScale", 15, 4); ("Duration", 24, 4);
       ("Unknown", 33, 31)].
Proof.
  assert (exists elms1, decode sample_1ms = Ok elms1) as [elms1 Hd].
  { eexists. vm_compute. reflexivity. }
  pose proof (decode_app sample_1ms ebml_start elms1 Hd) as H.
  vm_compute in Hd. apply Ok_inj in Hd. subst elms1.
  specialize (H eq_refl).
  assert (decode ebml_start = Ok [Element "Unknown" "b" 5 31 [] None]) as E
    by (vm_compute; reflexivity).
  rewrite E in H. destruct H as (elms & H & Ho & _).
  exists elms. split; [exact H|]. rewrite Ho. vm_compute. reflexivity.
Defined.

(** ** The earlier [process] *)

Lemma tag_of_type e n ty :
  tag_of e -> name e = n ->
  (n = "Segment" /\ ty = "m") \/ (n = "Info" /\ ty = "m") \/
  (n = "TimecodeScale" /\ ty = "u") \/ (n = "Duration" /\ ty = "f") ->
  type e = ty.
Proof.
  unfold tag_of. intros Ht <- Hn.
  destruct Ht as [[? ?]|[[? ?]|[[? ?]|[[? ?]|[? ?]]]]];
    destruct Hn as [[? ?]|[[? ?]|[[? ?]|[? ?]]]]; congruence.
Qed.

(** X8: the type guards of the earlier [process] never fire, and the values
    it multiplies are never missing: on every blob it returns, or throws,
    what the current [process] does. *)
Theorem earlier_process_agrees (nan : nan_encoding) (blob : list byte) :
  Earlier.process nan blob = process nan blob.
Proof.
  unfold Earlier.process, process.
  destruct (decode blob) as [elms| |] eqn:Hd; cbn [obind]; try done.
  apply decode_Ok in Hd as (els & Hs & ->).
  pose proof (scan_values _ _ _ _ Hs) as Hv.
  apply scan_laid_out in Hs as [_ HF].
  assert (Forall (fun e => (tag_of e /\ read_value blob (type e) (dataOffset e) = Ok (value e))
                           /\ children e = []) els) as HF'.
  { rewrite Forall_forall in *. intros e He. destruct (HF e He). split; [split|]; auto. }
  pose proof (build_tree_children
    (fun e => tag_of e /\ read_value blob (type e) (dataOffset e) = Ok (value e)) els) as HT.
  specialize (HT ltac:(by intros [] ?) HF'). rewrite Forall_lookup in HT.
  destruct (find_named "Segment" (build_tree els)) as [[si seg]|] eqn:Es; cbn [fmap option_fmap option_map snd]; [|done].
  apply find_named_Some in Es as (Hsi & Hsn & _).
  destruct (HT _ _ Hsi) as [[Hst _] Hsc].
  rewrite decide_False by (intros H; apply H; by apply (tag_of_type seg "Segment"); auto).
  destruct (find_named "Info" (children seg)) as [[ii info]|] eqn:Ei; cbn [fmap option_fmap option_map snd]; [|done].
  apply find_named_Some in Ei as (Hii & Hin & _).
  rewrite Forall_lookup in Hsc. destruct (Hsc _ _ Hii) as [[Hit _] Hic].
  rewrite decide_False by (intros H; apply H; by apply (tag_of_type info "Info"); auto).
  destruct (find_named "Duration" (children info)) as [[di d]|] eqn:Ed; cbn [fmap option_fmap option_map snd]; [|done].
  destruct (find_named "TimecodeScale" (children info)) as [[ti t]|] eqn:Et; cbn [fmap option_fmap option_map snd]; [|done].
  apply find_named_Some in Ed as (Hdi & Hdn & _).
  apply find_named_Some in Et as (Hti & Htn & _).
  rewrite Forall_lookup in Hic.
  destruct (Hic _ _ Hdi) as [Hdt Hdv]. destruct (Hic _ _ Hti) as [Htt Htv].
  assert (type t = "u") as Htu by (apply (tag_of_type t "TimecodeScale"); auto 10).
  assert (type d = "f") as Hdf by (apply (tag_of_type d "Duration"); auto 10).
  rewrite decide_False by (intros H; by apply H).
  assert (exists x, value d = Some x) as [x Hx].
  { rewrite Hdf in Hdv. unfold read_value in Hdv. rewrite decide_True in Hdv by done.
    destruct (getFloat32 blob (dataOffset d)); try done. cbn [obind] in Hdv.
    apply Ok_inj in Hdv. eauto. }
  assert (exists y, value t = Some y) as [y Hy].
  { rewrite Htu in Htv. unfold read_value in Htv. rewrite decide_False, decide_True in Htv by done.
    destruct (getUint32 blob (dataOffset t)); try done. cbn [obind] in Htv.
    apply Ok_inj in Htv. eauto. }
  by rewrite Hx, Hy.
Qed.


(** ** More about [sanitizeFilename] *)

Module FilenameMore.
Import Filename FilenameFacts.

Lemma remove_forbidden_clean s :
  Forall (fun c => forbidden c = false) s -> remove_forbidden s = s.
Proof.
  unfold remove_forbidden. induction 1 as [|c s Hc Hs IH]; simpl; [done|].
  rewrite Hc. simpl. by rewrite IH.
Qed.

Lemma trim_start_clean s : Forall (fun c => whitespace c = false) s -> trim_start s = s.
Proof. destruct 1 as [|c s Hc Hs]; simpl; [done|]. by rewrite Hc. Qed.

Lemma trim_clean s : Forall (fun c => whitespace c = false) s -> trim s = s.
Proof.
  intros H. unfold trim. rewrite (trim_start_clean s H).
  rewrite trim_start_clean by (by apply Forall_rev). apply rev_involutive.
Qed.

Lemma collapse_clean s : forall b,
  Forall (fun c => whitespace c = false) s -> single_underscores s ->
  (b = true -> head s <> Some underscore) ->
  collapse b s = s.
Proof.
  induction s as [|c r IH]; intros b Hw Hs Hb; [done|].
  apply Forall_cons in Hw as [Hc Hr]. cbn [collapse].
  unfold space_or_underscore. rewrite Hc. simpl orb.
  assert (single_underscores r) as Hsr by (destruct r; [done|apply Hs]).
  destruct (c =? underscore)%Z eqn:E.
  - apply Z.eqb_eq in E. subst c. destruct b; [exfalso; by apply Hb|].
    f_equal. apply IH; try done. intros _. destruct r as [|d r]; [done|].
    destruct Hs as [Hs _]. simpl. intros [= ->]. by apply Hs.
  - f_equal. by apply IH.
Qed.

(** Each of the four steps leaves a safe name within the limit as it is. *)
Lemma sanitize_steps_clean s m :
  Forall (fun c => forbidden c = false) s ->
  Forall (fun c => whitespace c = false) s ->
  single_underscores s ->
  (Z.of_nat (length s) <= m)%Z ->
  collapse false (substring0 (trim (remove_forbidden s)) m) = s.
Proof.
  intros Hf Hw Hs HL. unfold substring0.
  rewrite remove_forbidden_clean, trim_clean by done.
  rewrite take_ge by lia. by rewrite collapse_clean.
Qed.

(** X9: a title that is already a safe name within the length limit (not
    empty, no forbidden character, no whitespace, no two underscores in a
    row) is returned as it is. *)
Theorem sanitizeFilename_fixes_clean (title : jsstring) (maxLength : Z) :
  title <> [] ->
  Forall (fun c => forbidden c = false) title ->
  Forall (fun c => whitespace c = false) title ->
  single_underscores title ->
  (Z.of_nat (length title) <= maxLength)%Z ->
  sanitizeFilename title maxLength = title.
Proof.
  intros Hne Hf Hw Hs HL. unfold sanitizeFilename.
  rewrite sanitize_steps_clean by done. by destruct title.
Qed.

Lemma sanitizeFilename_fixes_clean_witness :
  sanitizeFilename (of_string "my_video-1.final") 50 = of_string "my_video-1.final".
Proof.
  apply sanitizeFilename_fixes_clean.
  - discriminate.
  - repeat constructor.
  - repeat constructor.
  - vm_compute. repeat split; intros [? ?]; discriminate.
  - vm_compute. discriminate.
Defined.

(** X10: sanitizing a sanitized name changes nothing, as long as the
    fallback fits the length limit (13 code units). *)
Theorem sanitizeFilename_idempotent (title : jsstring) (maxLength : Z) :
  (13 <= maxLength)%Z ->
  sanitizeFilename (sanitizeFilename title maxLength) maxLength =
    sanitizeFilename title maxLength.
Proof.
  intros Hm. destruct (sanitizeFilename_facts title maxLength) as (Hne & Hf & Hw & Hs & HL).
  set (r := sanitizeFilename title maxLength) in *.
  assert (Z.of_nat (length r) <= maxLength)%Z as HL'.
  { destruct HL as [-> | ?]; [|done]. vm_compute length. lia. }
  unfold sanitizeFilename at 1. rewrite sanitize_steps_clean by done. by destruct r.
Qed.

Lemma sanitizeFilename_idempotent_witness :
  sanitizeFilename (sanitizeFilename (of_string " a/b  c? ") 50) 50 = of_string "ab_c".
Proof.
  rewrite (sanitizeFilename_idempotent (of_string " a/b  c? ") 50); [reflexivity|lia].
Defined.

Lemma collapse_units s : forall b,
  Forall (fun c => c = underscore \/ c ∈ s) (collapse b s).
Proof.
  induction s as [|c r IH]; intros b; simpl; [constructor|].
  assert (forall b', Forall (fun x => x = underscore \/ x ∈ c :: r) (collapse b' r)) as IH'.
  { intros b'. eapply Forall_impl; [apply IH|]. intros x [?|?]; [by left|right].
    by apply elem_of_cons; right. }
  destruct (space_or_underscore c).
  - destruct b; [apply IH'|]. constructor; [by left|apply IH'].
  - constructor; [right; apply elem_of_cons; by left|apply IH'].
Qed.

Lemma trim_start_units s c : c ∈ trim_start s -> c ∈ s.
Proof.
  induction s as [|d r IH]; simpl; [done|].
  destruct (whitespace d); [|done]. intros H. apply elem_of_cons. right. by apply IH.
Qed.

Lemma trim_units s c : c ∈ trim s -> c ∈ s.
Proof.
  unfold trim. intros H. apply list_elem_of_In, in_rev, list_elem_of_In in H.
  apply trim_start_units, list_elem_of_In, in_rev, list_elem_of_In in H.
  by apply trim_start_units.
Qed.

(** X11: unless it is the fallback, the name is made of underscores and of
    code units of the title that are neither forbidden nor whitespace:
    nothing else is ever put in. *)
Theorem sanitizeFilename_units (title : jsstring) (maxLength : Z) :
  sanitizeFilename title maxLength = fallback \/
  Forall (fun c => c = underscore \/
                   (c ∈ title /\ forbidden c = false /\ whitespace c = false))
    (sanitizeFilename title maxLength).
Proof.
  destruct (sanitizeFilename_facts title maxLength) as (_ & Hf & Hw & _).
  revert Hf Hw. unfold sanitizeFilename.
  pose proof (collapse_units (substring0 (trim (remove_forbidden title)) maxLength) false) as Hu.
  destruct (collapse false _) as [|c r] eqn:E; [by left|]. intros Hf Hw. right.
  rewrite Forall_forall in *. intros x Hx.
  destruct (Hu x Hx) as [?|Hin]; [by left|right].
  split; [|split; [by apply Hf|by apply Hw]].
  unfold substring0 in Hin. apply elem_of_take in Hin as (i & Hi & _).
  apply list_elem_of_lookup_2, trim_units in Hi.
  unfold remove_forbidden in Hi. apply list_elem_of_In, List.filter_In in Hi as [Hi _].
  by apply list_elem_of_In.
Qed.

End FilenameMore.

(** ** Recording and saving *)

Module RecordingFacts.
Import Filename FilenameFacts Recording.

Lemma foldl_ondataavailable datas : forall chunks,
  foldl ondataavailable chunks datas =
    chunks ++ List.filter (fun d => negb (Nat.eqb (length d) 0)) datas.
Proof.
  induction datas as [|d datas IH]; intros chunks; simpl; [by rewrite app_nil_r|].
  rewrite IH. unfold ondataavailable. destruct d as [|b d]; simpl; [done|].
  by rewrite <- app_assoc.
Qed.

Lemma concat_filter_nonempty (datas : list (list byte)) :
  concat (List.filter (fun d => negb (Nat.eqb (length d) 0)) datas) = concat datas.
Proof.
  induction datas as [|d datas IH]; simpl; [done|].
  destruct d as [|b d]; simpl; [done|]. by rewrite IH.
Qed.

Lemma Blob_recorded datas : Blob (recorded datas) = concat datas.
Proof.
  unfold Blob, recorded. rewrite foldl_ondataavailable. apply concat_filter_nonempty.
Qed.

Lemma recorded_nil datas : recorded datas = [] <-> concat datas = [].
Proof.
  unfold recorded. rewrite foldl_ondataavailable. simpl.
  induction datas as [|d datas IH]; simpl; [done|].
  destruct d as [|b d]; simpl; [done|]. split; discriminate.
Qed.

(** X13: of the data delivered during a recording, the empty pieces are not
    kept; the blob made of the chunks is all the data delivered, in order;
    and no chunk is kept exactly when no byte was delivered. *)
Theorem recorded_blob (datas : list (list byte)) :
  Forall (fun c => c <> []) (recorded datas) /\
  Blob (recorded datas) = concat datas /\
  (recorded datas = [] <-> concat datas = []).
Proof.
  split; [|split; [apply Blob_recorded|apply recorded_nil]].
  unfold recorded. rewrite foldl_ondataavailable. simpl.
  apply List.Forall_forall. intros c Hc. apply List.filter_In in Hc as [_ Hc].
  by destruct c.
Qed.

(** X14: what [saveRecording] does after a recording. When no byte was
    delivered it sends nothing. Otherwise, when [process] returns, it sends
    one message whose blob is the result of [process] on all the data, as
    long as the data, under the sanitized title followed by .webm, and
    drops the chunks; when [process] throws, it throws, sends nothing and
    keeps the chunks. It never loops. *)
Theorem saveRecording_recorded (nan : nan_encoding) (datas : list (list byte))
    (title : jsstring) :
  match process nan (concat datas) with
  | Ok out =>
      if decide (concat datas = []) then
        saveRecording nan (recorded datas) title = (Ok [], [])
      else
        length out = length (concat datas) /\
        saveRecording nan (recorded datas) title =
          (Ok [DOWNLOAD_VIDEO out (sanitizeFilename title 50 ++ of_string ".webm")], [])
  | Throw e =>
      concat datas <> [] /\
      saveRecording nan (recorded datas) title = (Throw e, recorded datas)
  | Diverge => False
  end.
Proof.
  pose proof (Blob_recorded datas) as HB. pose proof (recorded_nil datas) as Hnil.
  unfold saveRecording.
  destruct (process nan (concat datas)) as [out|e|] eqn:Hp.
  - case_decide as Hc.
    + apply Hnil in Hc. by rewrite Hc.
    + destruct (recorded datas) as [|c cs] eqn:Hr; [exfalso; by apply Hc, Hnil|].
      rewrite HB, Hp. split; [by apply (process_length nan)|done].
  - assert (concat datas <> []) as Hc.
    { intros Hc. rewrite Hc in Hp. vm_compute in Hp. discriminate. }
    split; [done|].
    destruct (recorded datas) as [|c cs] eqn:Hr; [exfalso; by apply Hc, Hnil|].
    by rewrite HB, Hp.
  - by apply process_not_Diverge in Hp.
Qed.

(** X15: the name under which [saveRecording] asks for the download is a
    non-empty base of at most 50 code units followed by .webm, and holds
    no forbidden character, no control character and no whitespace. *)
Theorem saveRecording_filename (nan : nan_encoding) (chunks : list (list byte))
    (title : jsstring) (msgs : list message) (chunks' : list (list byte)) (m : message) :
  saveRecording nan chunks title = (Ok msgs, chunks') -> m ∈ msgs ->
  exists base,
    filename m = base ++ of_string ".webm" /\
    1 <= length base <= 50 /\
    Forall (fun c => forbidden c = false /\ whitespace c = false) (filename m).
Proof.
  unfold saveRecording. intros H Hm.
  destruct chunks as [|c cs]; [injection H as <- _; by apply elem_of_nil in Hm|].
  destruct (process _) as [out| |]; try done. injection H as <- _.
  apply list_elem_of_singleton in Hm. subst m. simpl.
  destruct (sanitizeFilename_facts title default_maxLength) as (Hne & Hf & Hw & _ & HL).
  exists (sanitizeFilename title default_maxLength). split; [done|]. split.
  - split; [destruct (sanitizeFilename _ _); [done|simpl; lia]|].
    destruct HL as [-> | HL]; [vm_compute; lia|]. unfold default_maxLength in *. lia.
  - apply Forall_app. split.
    + rewrite Forall_forall in *. intros x Hx. split; [by apply Hf|by apply Hw].
    + repeat constructor.
Qed.

Lemma saveRecording_filename_witness :
  exists base,
    of_string "a_b.webm" = base ++ of_string ".webm" /\
    1 <= length base <= 50 /\
    Forall (fun c => forbidden c = false /\ whitespace c = false) (of_string "a_b.webm").
Proof.
  apply (saveRecording_filename nan_plain [ebml_start] (of_string "a  b")
           [DOWNLOAD_VIDEO ebml_start (of_string "a_b.webm")] []
           (DOWNLOAD_VIDEO ebml_start (of_string "a_b.webm"))).
  - vm_compute. reflexivity.
  - apply list_elem_of_singleton. reflexivity.
Defined.
End RecordingFacts.

(** ** The timer text *)

Module TimerFacts.
Import Timer.

Lemma to_int_proper z :
  Z.to_int z <> Decimal.Pos Decimal.Nil /\ Z.to_int z <> Decimal.Neg Decimal.Nil.
Proof.
  destruct z as [|p|p]; simpl; split; try discriminate;
    intros [= H]; by apply DecimalPos.Unsigned.to_uint_nonnil in H.
Qed.

(** The digits of an integer stand for it. *)
Lemma number_of_toString z : number_of (toString z) = Some z.
Proof.
  unfold number_of, toString. destruct (to_int_proper z) as [H1 H2].
  rewrite NilZero.isi by done. simpl. by rewrite DecimalZ.of_to.
Qed.

Lemma number_of_zero_digit a s z :
  a <> "-"%char -> number_of (String a s) = Some z ->
  number_of (String "0" (String a s)) = Some z.
Proof.
  unfold number_of, NilZero.int_of_string. intros Ha.
  rewrite (proj2 (Ascii.eqb_neq a "-")) by done.
  change (Ascii.eqb "0" "-") with false.
  unfold NilZero.uint_of_string. cbn [NilEmpty.uint_of_string].
  destruct (uint_of_char a (NilEmpty.uint_of_string s)) as [d|]; simpl; [|done].
  done.
Qed.

Lemma toString_nonneg_head z : (0 <= z)%Z ->
  exists a s, toString z = String a s /\ a <> "-"%char.
Proof.
  intros Hz. unfold toString. destruct z as [|p|p]; [by eexists _, _|..|lia].
  simpl. unfold NilZero.string_of_uint.
  pose proof (DecimalPos.Unsigned.to_uint_nonnil p) as Hn.
  destruct (Pos.to_uint p); try done; by eexists _, _.
Qed.

(** Padding does not change the number shown. *)
Lemma number_of_padStart2 z : (0 <= z)%Z -> number_of (padStart2 (toString z)) = Some z.
Proof.
  intros Hz. pose proof (number_of_toString z) as H.
  destruct (toString_nonneg_head z Hz) as (a & s & E & Ha). rewrite E in *.
  unfold padStart2. destruct s as [|b s]; simpl; [|done].
  by apply number_of_zero_digit.
Qed.

Lemma length_padStart2 s : 2 <= String.length (padStart2 s).
Proof.
  unfold padStart2. destruct s as [|a [|b s]]; simpl; lia.
Qed.

Lemma below_100 (P : Z -> bool) :
  forallb P (map Z.of_nat (seq 0 100)) = true ->
  forall z, (0 <= z < 100)%Z -> P z = true.
Proof.
  intros H z Hz. rewrite forallb_forall in H. apply H. apply in_map_iff.
  exists (Z.to_nat z). split; [lia|]. apply in_seq. lia.
Qed.

Lemma two_digits z : (0 <= z < 100)%Z -> String.length (padStart2 (toString z)) = 2.
Proof.
  intros Hz. apply Nat.eqb_eq.
  apply (below_100 (fun z => Nat.eqb (String.length (padStart2 (toString z))) 2)); [|done].
  vm_compute. reflexivity.
Qed.

Lemma two_chars_below_100 a b z :
  number_of (String a (String b EmptyString)) = Some z -> (z < 100)%Z.
Proof.
  unfold number_of, NilZero.int_of_string.
  destruct (Ascii.eqb a "-").
  - unfold NilZero.uint_of_string. cbn [NilEmpty.uint_of_string].
    destruct (uint_of_char b (Some Decimal.Nil)) as [d|]; simpl; [|done].
    intros [= <-]. unfold Z.of_uint. lia.
  - unfold NilZero.uint_of_string. cbn [NilEmpty.uint_of_string].
    destruct (uint_of_char b (Some Decimal.Nil)) as [d|] eqn:Eb;
      [|by destruct a as [[] [] [] [] [] [] [] []]].
    apply uint_of_char_spec in Eb.
    destruct (uint_of_char a (Some d)) as [d'|] eqn:Ea; simpl; [|done].
    apply uint_of_char_spec in Ea. intros [= <-].
    intuition subst; vm_compute; reflexivity.
Qed.

Lemma length_append s t :
  String.length (String.append s t) = String.length s + String.length t.
Proof. induction s as [|a s IH]; simpl; [done|]. by rewrite IH. Qed.

Lemma append_inj s1 : forall s2 t1 t2,
  String.length s1 = String.length s2 ->
  String.append s1 t1 = String.append s2 t2 -> s1 = s2 /\ t1 = t2.
Proof.
  induction s1 as [|a s1 IH]; intros [|b s2] t1 t2 HL H; simpl in *; try done.
  injection H as -> H. destruct (IH s2 t1 t2) as [-> ->]; [lia|done|done].
Qed.

(** X16: the text shown for a number of seconds is the minutes on two
    characters at least, a colon, and the seconds on two characters
    exactly; the two fields are decimal digits that read as the quotient
    and the remainder of the seconds by 60. *)
Theorem timer_text_fields (elapsed : Z) :
  whole_seconds elapsed ->
  exists minutes seconds,
    timer_text elapsed = String.append minutes (String ":" seconds) /\
    2 <= String.length minutes /\ String.length seconds = 2 /\
    number_of minutes = Some (elapsed / 60)%Z /\
    number_of seconds = Some (elapsed mod 60)%Z.
Proof.
  intros [H _]. eexists _, _. split; [reflexivity|].
  rewrite Z.rem_mod_nonneg by lia.
  pose proof (Z.mod_pos_bound elapsed 60).
  split; [apply length_padStart2|]. split; [apply two_digits; lia|].
  split; apply number_of_padStart2; [apply Z.div_pos; lia|lia].
Qed.

Lemma timer_text_fields_witness :
  exists minutes seconds,
    timer_text 754 = String.append minutes (String ":" seconds) /\
    2 <= String.length minutes /\ String.length seconds = 2 /\
    number_of minutes = Some (754 / 60)%Z /\ number_of seconds = Some (754 mod 60)%Z.
Proof. apply (timer_text_fields 754). unfold whole_seconds. lia. Defined.

(** X17: two different numbers of seconds are never shown as the same
    text. *)
Theorem timer_text_inj (e1 e2 : Z) :
  whole_seconds e1 -> whole_seconds e2 -> e1 <> e2 -> timer_text e1 <> timer_text e2.
Proof.
  intros [H1 _] [H2 _] Hne H. apply Hne. unfold timer_text in H.
  rewrite !Z.rem_mod_nonneg in H by lia.
  pose proof (Z.mod_pos_bound e1 60). pose proof (Z.mod_pos_bound e2 60).
  assert (0 <= e1 / 60 /\ 0 <= e2 / 60)%Z as [Q1 Q2] by (split; apply Z.div_pos; lia).
  pose proof (number_of_padStart2 _ Q1) as M1. pose proof (number_of_padStart2 _ Q2) as M2.
  pose proof (number_of_padStart2 (e1 mod 60)) as S1.
  pose proof (number_of_padStart2 (e2 mod 60)) as S2.
  pose proof (two_digits (e1 mod 60)) as L1. pose proof (two_digits (e2 mod 60)) as L2.
  assert (String.length (padStart2 (toString (e1 / 60))) =
          String.length (padStart2 (toString (e2 / 60)))) as HL.
  { apply (f_equal String.length) in H. rewrite !length_append in H.
    cbn [String.length] in H. rewrite L1, L2 in H by lia. lia. }
  apply append_inj in H as [Hm [= Hs]]; [|done].
  rewrite Hm in M1. rewrite Hs in S1. rewrite M2 in M1. rewrite S2 in S1 by lia.
  specialize (S1 ltac:(lia)). injection M1 as M1. injection S1 as S1.
  rewrite (Z.div_mod e1 60), (Z.div_mod e2 60) by lia. by rewrite M1, S1.
Qed.

Lemma timer_text_inj_witness : timer_text 3599 <> timer_text 3600.
Proof. apply timer_text_inj; unfold whole_seconds; lia. Defined.

(** X18: the text is five characters long up to 99:59, and longer from one
    hundred minutes on. *)
Theorem timer_text_length (elapsed : Z) :
  whole_seconds elapsed ->
  (String.length (timer_text elapsed) = 5 <-> (elapsed < 6000)%Z).
Proof.
  intros [H _]. unfold timer_text. rewrite length_append. cbn [String.length].
  rewrite Z.rem_mod_nonneg by lia. pose proof (Z.mod_pos_bound elapsed 60).
  rewrite (two_digits (elapsed mod 60)) by lia.
  assert (0 <= elapsed / 60)%Z as Hm by (apply Z.div_pos; lia).
  pose proof (number_of_padStart2 _ Hm) as M. split.
  - intros HL. destruct (padStart2 _) as [|a [|b [|c m]]]; simpl in *; try lia.
    apply two_chars_below_100 in M. Z.div_mod_to_equations. lia.
  - intros HL. rewrite two_digits; [lia|]. Z.div_mod_to_equations. lia.
Qed.

Lemma timer_text_length_witness :
  String.length (timer_text 5999) = 5 /\ String.length (timer_text 6000) <> 5.
Proof.
  split.
  - apply (timer_text_length 5999); unfold whole_seconds; lia.
  - intros H. apply (timer_text_length 6000) in H; unfold whole_seconds; lia.
Defined.
End TimerFacts.

(** ** Object URLs in the background page of the earlier version *)

Module DownloadsFacts.
Import Downloads.

Lemma tracked_insert_fresh (m : gmap Z string) i url :
  m !! i = None -> tracked (<[i := url]> m) ≡ₚ url :: tracked m.
Proof. intros H. unfold tracked. by rewrite map_to_list_insert. Qed.

Lemma tracked_delete (m : gmap Z string) i url :
  m !! i = Some url -> url :: tracked (delete i m) ≡ₚ tracked m.
Proof.
  intros H. unfold tracked. rewrite <- (insert_delete_id m i url H) at 2.
  rewrite map_to_list_insert by apply lookup_delete_eq. done.
Qed.

(** Storing under an identifier that is in use drops the URL stored
    before. *)
Lemma tracked_insert (m : gmap Z string) i url :
  tracked (<[i := url]> m) ⊆+ url :: tracked m.
Proof.
  destruct (m !! i) as [old|] eqn:E.
  - rewrite <- (insert_delete_eq m). rewrite tracked_insert_fresh by apply lookup_delete_eq.
    rewrite <- (tracked_delete m i old E). by apply submseteq_skip, submseteq_cons.
  - by rewrite tracked_insert_fresh.
Qed.

(** One event: what is revoked and what is kept afterwards was kept before
    or has just been handed over. *)
Lemma handle_accounts m e m' r :
  handle m e = (m', r) ->
  r ++ tracked m' ⊆+ started_urls [e] ++ tracked m.
Proof.
  destruct e as [url [i|]|d]; simpl; unfold download_callback, onChanged.
  - case_decide; intros [= <- <-]; simpl; [done|]. apply tracked_insert.
  - intros [= <- <-]. done.
  - destruct (delta_state d) as [current|]; [|by intros [= <- <-]].
    destruct (m !! delta_id d) as [url|] eqn:E; [|by intros [= <- <-]].
    case_decide; intros [= <- <-]; simpl; [|done].
    by rewrite (tracked_delete m _ _ E).
Qed.



Lemma started_urls_cons e es : started_urls (e :: es) = started_urls [e] ++ started_urls es.
Proof. unfold started_urls. simpl. by destruct e. Qed.


Lemma run_accounts es : forall m m' r,
  run m es = (m', r) -> r ++ tracked m' ⊆+ started_urls es ++ tracked m.
Proof.
  induction es as [|e es IH]; intros m m' r; [by intros [= <- <-]|].
  cbn [run]. destruct (handle m e) as [m1 r1] eqn:E1.
  destruct (run m1 es) as [m2 r2] eqn:E2. intros [= <- <-].
  apply IH in E2. apply handle_accounts in E1.
  rewrite started_urls_cons, <- (app_assoc r1).
  etrans; [apply submseteq_app; [reflexivity|exact E2]|].
  rewrite (app_assoc r1), (Permutation_app_comm r1), <- app_assoc.
  etrans; [apply submseteq_app; [reflexivity|exact E1]|].
  by rewrite (app_assoc (started_urls es)), (Permutation_app_comm (started_urls es)).
Qed.


(** X19: whatever events arrive, the URLs revoked so far together with
    those still kept are among the URLs handed to the callback, each
    counted as often as it was handed over: no URL is revoked that was not
    handed over, and none more often than it was. *)
Theorem revocations_accounted (events : list event) (objectUrls : gmap Z string)
    (r : revoked) :
  run ∅ events = (objectUrls, r) ->
  r ++ tracked objectUrls ⊆+ started_urls events.
Proof.
  intros H. apply run_accounts in H. unfold tracked in H at 2.
  by rewrite map_to_list_empty, app_nil_r in H.
Qed.

Lemma revocations_accounted_witness :
  ["blob:b"; "blob:a"] ++ tracked {[ 8%Z := "blob:c" ]} ⊆+ started_urls sample_session.
Proof.
  apply (revocations_accounted sample_session). vm_compute. reflexivity.
Defined.


End DownloadsFacts.
